(** * VILA demo scripts: [src/local.py] and [src/client.py]

    A shallow embedding of the two scripts of the repository and the
    properties their specification states about them.

    - Python [str] values are Rocq [string]s; a character is a code point
      below 256 (the Latin-1 range), which is where [str.lower],
      [str.strip] and [int] are modelled exactly, [int] with the
      interpreter's default limit of 4300 digits.
    - Python [int] is [Z]; [//] by a positive constant is [Z.div].
    - [os.environ] and [clib.conv_templates] are finite maps ([gmap]).
    - Mutation of the model object is explicit state passing; exceptions
      are an error result that keeps the state reached when they were
      raised.
    - Terminal and log output is a trace of events, and writing does not
      fail; [input()] reads from a list of pending terminal events.
    - An interrupt is what a call of [input()] receives when the key is
      pressed while the script waits at a prompt, or what the generation
      raises; the world may also make loading and generation raise
      [SystemExit] or another class outside [Exception]. *)

From Stdlib Require Import ZArith Ascii String List Bool Lia.
From Stdlib Require Import Sorting.Sorted Permutation DecimalString.
From Equations Require Import Equations.
From stdpp Require Import base option list sorting gmap strings.

Local Open Scope Z_scope.

(* ================================================================= *)
(** ** Python strings *)

Module PyStr.

Definition code (c : ascii) : N := N_of_ascii c.

(** [str.isspace] on one character, for code points below 256. *)
Definition isspace (c : ascii) : bool :=
  let n := code c in
  ((9 <=? n) && (n <=? 13) || (28 <=? n) && (n <=? 32)
   || (n =? 133) || (n =? 160))%N.

Fixpoint lstrip (s : string) : string :=
  match s with
  | EmptyString => EmptyString
  | String c s' => if isspace c then lstrip s' else s
  end.

Fixpoint rstrip (s : string) : string :=
  match s with
  | EmptyString => EmptyString
  | String c s' =>
      match rstrip s' with
      | EmptyString => if isspace c then EmptyString else String c EmptyString
      | r => String c r
      end
  end.

(** [s.strip()] *)
Definition strip (s : string) : string := rstrip (lstrip s).

(** [str.lower] on one character: A-Z, and the Latin-1 capitals
    U+00C0..U+00DE without the multiplication sign U+00D7. *)
Definition lower_char (c : ascii) : ascii :=
  let n := code c in
  if ((65 <=? n) && (n <=? 90)
      || (192 <=? n) && (n <=? 222) && negb (n =? 215))%N
  then ascii_of_N (n + 32) else c.

Fixpoint lower (s : string) : string :=
  match s with
  | EmptyString => EmptyString
  | String c s' => String (lower_char c) (lower s')
  end.

(** [str.upper] on one character of the ASCII range; the script applies
    it to the five extension constants only. *)
Definition upper_char (c : ascii) : ascii :=
  let n := code c in
  if ((97 <=? n) && (n <=? 122))%N then ascii_of_N (n - 32) else c.

Fixpoint upper (s : string) : string :=
  match s with
  | EmptyString => EmptyString
  | String c s' => String (upper_char c) (upper s')
  end.

(** [s.startswith(p)] *)
Fixpoint startswith (p s : string) : bool :=
  match p, s with
  | EmptyString, _ => true
  | String a p', String b s' => Ascii.eqb a b && startswith p' s'
  | String _ _, EmptyString => false
  end.

(** [needle in hay] *)
Fixpoint contains (needle hay : string) : bool :=
  startswith needle hay ||
  match hay with
  | EmptyString => false
  | String _ hay' => contains needle hay'
  end.

(** [s.endswith(p)] *)
Definition endswith (p s : string) : bool :=
  startswith (String.rev p) (String.rev s).

(** [s.split(sep)] for a one-character separator: never the empty list. *)
Fixpoint split (sep : ascii) (s : string) : list string :=
  match s with
  | EmptyString => [EmptyString]
  | String c s' =>
      if Ascii.eqb c sep then EmptyString :: split sep s'
      else match split sep s' with
           | piece :: rest => String c piece :: rest
           | [] => [String c EmptyString]
           end
  end.

Definition digit_of (c : ascii) : option Z :=
  let n := code c in
  if ((48 <=? n) && (n <=? 57))%N then Some (Z.of_N (n - 48)) else None.

(** The digits of a decimal literal as [int] reads them: at least one
    digit, single underscores allowed between digits only. *)
Fixpoint int_digits (acc : Z) (after_digit : bool) (s : string) : option Z :=
  match s with
  | EmptyString => if after_digit then Some acc else None
  | String c s' =>
      if Ascii.eqb c "_"
      then if after_digit then int_digits acc false s' else None
      else match digit_of c with
           | Some d => int_digits (10 * acc + d) true s'
           | None => None
           end
  end.

(** The white space [int] skips around a literal.  It is not that of
    [str.strip]: U+001C..U+001F stay where they are and make the literal
    invalid; NEL and the no-break space are skipped, as [int] turns the
    Unicode white space outside ASCII into blanks first. *)
Definition int_isspace (c : ascii) : bool :=
  let n := code c in
  ((9 <=? n) && (n <=? 13) || (n =? 32) || (n =? 133) || (n =? 160))%N.

Fixpoint int_lstrip (s : string) : string :=
  match s with
  | EmptyString => EmptyString
  | String c s' => if int_isspace c then int_lstrip s' else s
  end.

Fixpoint int_rstrip (s : string) : string :=
  match s with
  | EmptyString => EmptyString
  | String c s' =>
      match int_rstrip s' with
      | EmptyString => if int_isspace c then EmptyString else String c EmptyString
      | r => String c r
      end
  end.

(** [sys.get_int_max_str_digits()]: the interpreter's default, which the
    scripts do not change. *)
Definition int_max_str_digits : N := 4300.

(** The digits of a literal, leading zeros included, underscores not. *)
Fixpoint count_digits (s : string) : N :=
  match s with
  | EmptyString => 0
  | String c s' =>
      ((if digit_of c is Some _ then 1 else 0) + count_digits s')%N
  end.

(** A literal without its sign: [None] beyond the limit on the number of
    digits, and for what is no literal. *)
Definition int_literal (t : string) : option Z :=
  if (int_max_str_digits <? count_digits t)%N then None
  else int_digits 0 false t.

(** [int(s)] in base ten; [None] is [ValueError]. *)
Definition int (s : string) : option Z :=
  match int_rstrip (int_lstrip s) with
  | String "+" r => int_literal r
  | String "-" r => Z.opp <$> int_literal r
  | t => int_literal t
  end.

(** [str(n)] for an integer. *)
Definition of_int (n : Z) : string :=
  NilZero.string_of_int (Z.to_int n).

End PyStr.

(* ================================================================= *)
(** ** Exceptions, results and the terminal *)

(** The exceptions the scripts raise or receive.  [KeyboardInterrupt],
    [SystemExit] and the classes of [BaseExceptionOnly] derive from
    [BaseException] only; every other constructor is a class deriving
    from [Exception]. *)
Inductive exn : Type :=
| KeyboardInterrupt
| EOFError                               (* input() at end of input *)
| InvalidLiteral (literal : string)      (* the ValueError of int(literal) *)
| ValueError (msg : string)              (* ValueError(msg) raised by the script *)
| KeyError (key : string)
| LibraryError (cls msg : string)        (* an error class of llava or the OS *)
| SystemExit (status : Z)                (* sys.exit(status) called somewhere *)
| BaseExceptionOnly (cls msg : string).  (* GeneratorExit, or a library's own
                                            subclass of BaseException *)

Definition is_ValueError (e : exn) : bool :=
  match e with InvalidLiteral _ | ValueError _ => true | _ => false end.

(** [isinstance(e, Exception)] *)
Definition is_Exception (e : exn) : bool :=
  match e with
  | KeyboardInterrupt | SystemExit _ | BaseExceptionOnly _ _ => false
  | _ => true
  end.

Inductive result (A : Type) : Type :=
| Ok (a : A)
| Raise (e : exn).
Arguments Ok {A} a.
Arguments Raise {A} e.

(** [pathlib.Path]: the directory it was globbed from and its last
    component, [Path.name]. *)
Record Path : Type := mkPath { parent : string; name : string }.

Global Instance Path_eq_dec : EqDecision Path.
Proof. solve_decision. Defined.

(** How pathlib reads the text of a POSIX path: a root of one slash, or
    of two when the text starts with exactly two, and the components
    between slashes without the empty ones and without [.]. *)
Definition posix_root (s : string) : string :=
  match s with
  | String "/" (String "/" (String "/" _)) => "/"
  | String "/" (String "/" _) => "//"
  | String "/" _ => "/"
  | _ => ""
  end.

Definition posix_parts (s : string) : list string :=
  List.filter (fun x => negb (String.eqb x "") && negb (String.eqb x "."))
    (PyStr.split "/" s).

(** [str(path)] for a path that [glob] made from the directory
    [Path(parent)] and a [name] in it: [images/] and [./images] give
    [images/a.jpg], the directory [.] gives [a.jpg]. *)
Definition Path_str (p : Path) : string :=
  posix_root (parent p)
  +:+ String.concat "/" (posix_parts (parent p) ++ [name p]).

(** One element of the list passed to [model.generate_content]. *)
Inductive prompt_item : Type :=
| Image (path : string)    (* llava.media.Image(path) *)
| Text (text : string).

(** What the script writes, in order.  [Print] is one call of [print]
    with the colour attributes of [colored] dropped; [Prompt] is the
    prompt of one call of [input]; [Generate] marks a call of the model. *)
Inductive event : Type :=
| Print (text : string)
| PrintImage (idx : Z) (file : string) (st_size : Z)
    (* "  [idx] file (st_size / 1024 KB)", one decimal *)
| Prompt (text : string)
| LogInfo (msg : string)
| LogError (msg : string)
| LogInferenceError (e : exn)   (* logger.error(f"Error during inference: {e}") *)
| PrintInferenceError (e : exn) (* print(f"\nError: {e}") *)
| Generate (prompt : list prompt_item).
    (* the call model.generate_content(prompt), recorded when it is made *)

(** What the terminal delivers to one call of [input]. *)
Inductive stdin_event : Type :=
| Line (text : string)   (* a line, without its newline *)
| CtrlC.                 (* the interrupt key, pressed while [input] waits:
                            KeyboardInterrupt *)

(* ================================================================= *)
(** ** Image catalog discovery: [find_images] *)

(** What a path names on the file system, as [Path.exists], [is_dir]
    and [scandir] find it. *)
Inductive fs_node : Type :=
| Absent                               (* exists() is False: os.stat fails with
                                          ENOENT, ENOTDIR, EBADF or ELOOP *)
| FsFails (cls msg : string)           (* os.stat fails with another OSError,
                                          which exists() does not catch (a
                                          name too long, a parent that may
                                          not be searched), or scandir with
                                          one that glob does not catch *)
| NotADirectory
| Directory (entries : list string).   (* names of the direct children, in
                                          the order the OS lists them;
                                          none when it may not be listed *)

Definition supported_extensions : list string :=
  [".jpg"; ".jpeg"; ".png"; ".bmp"; ".gif"].

(** [images_path.glob("*" + suffix)] for a suffix without wildcards, on
    a POSIX system: the direct children, files or not, whose name ends
    with [suffix], compared character by character; nothing when the
    path is not a directory. *)
Definition glob (node : fs_node) (dir suffix : string) : list Path :=
  match node with
  | Directory entries =>
      mkPath dir <$> List.filter (PyStr.endswith suffix) entries
  | _ => []
  end.

(** The order of [Path] objects, on the pair of directory and name. *)
Definition Path_leb (p q : Path) : bool :=
  if String.eqb (parent p) (parent q)
  then String.leb (name p) (name q)
  else String.leb (parent p) (parent q).

Definition Path_le (p q : Path) : Prop := Path_leb p q.

Global Instance Path_le_dec : RelDecision Path_le.
Proof. intros p q. unfold Path_le. apply _. Defined.

(** [sorted(paths)] *)
Definition sorted (l : list Path) : list Path := merge_sort Path_le l.

(** What [find_images] returns or raises, and what it logs. *)
Definition find_images (fs : string -> fs_node) (images_dir : string)
  : result (list Path) * list event :=
  match fs images_dir with
  | FsFails cls msg => (Raise (LibraryError cls msg), [])
  | Absent =>
      (Ok [], [LogError ("Images directory not found: " +:+ images_dir)])
  | node =>
      (Ok (sorted
             (flat_map
                (fun ext => glob node images_dir ext
                            ++ glob node images_dir (PyStr.upper ext))
                supported_extensions)),
       [])
  end.

(* ================================================================= *)
(** ** Terminal interaction *)

(** A computation that reads the terminal: what it returns or raises,
    the terminal events it has not consumed, and what it wrote. *)
Record outcome (A : Type) : Type := mkOutcome {
  value : result A;
  remaining : list stdin_event;
  output : list event
}.
Arguments mkOutcome {A} value remaining output.
Arguments value {A} o.
Arguments remaining {A} o.
Arguments output {A} o.

Definition IO (A : Type) : Type := list stdin_event -> outcome A.

Definition io_ret {A} (a : A) : IO A := fun pending => mkOutcome (Ok a) pending [].
Definition io_raise {A} (e : exn) : IO A := fun pending => mkOutcome (Raise e) pending [].

Definition io_bind {A B} (m : IO A) (k : A -> IO B) : IO B := fun pending =>
  let o := m pending in
  match value o with
  | Ok a =>
      let o' := k a (remaining o) in
      mkOutcome (value o') (remaining o') (output o ++ output o')
  | Raise e => mkOutcome (Raise e) (remaining o) (output o)
  end.

(** Events written before a computation runs. *)
Definition emit {A} (evs : list event) (o : outcome A) : outcome A :=
  mkOutcome (value o) (remaining o) (evs ++ output o).

Definition write (evs : list event) : IO unit :=
  fun pending => mkOutcome (Ok tt) pending evs.

Global Instance IO_ret : MRet IO := @io_ret.
Global Instance IO_bind : MBind IO := fun A B k m => io_bind m k.

Definition nl : string := String (ascii_of_N 10) EmptyString.

(** [input(prompt)] *)
Definition input (prompt : string) : IO string := fun pending =>
  match pending with
  | [] => mkOutcome (Raise EOFError) [] [Prompt prompt]
  | CtrlC :: rest => mkOutcome (Raise KeyboardInterrupt) rest [Prompt prompt]
  | Line text :: rest => mkOutcome (Ok text) rest [Prompt prompt]
  end.

(* ----------------------------------------------------------------- *)
(** *** [display_images] *)

(** The loop over [enumerate(image_files, 1)], from index [idx] on.
    [st_size p = None]: [img_path.stat()] fails. *)
Fixpoint display_lines (st_size : Path -> option Z) (idx : Z)
  (image_files : list Path) : result unit * list event :=
  match image_files with
  | [] => (Ok tt, [])
  | img_path :: rest =>
      match st_size img_path with
      | Some size =>
          let '(r, evs) := display_lines st_size (idx + 1) rest in
          (r, PrintImage idx (name img_path) size :: evs)
      | None =>
          (Raise (LibraryError "FileNotFoundError" (Path_str img_path)), [])
      end
  end.

Definition display_images (st_size : Path -> option Z)
  (image_files : list Path) : IO unit := fun pending =>
  let '(r, evs) := display_lines st_size 1 image_files in
  let header := Print (nl +:+ "=== Available Images ===") in
  match r with
  | Ok _ => mkOutcome (Ok tt) pending (header :: evs ++ [Print ""])
  | Raise e => mkOutcome (Raise e) pending (header :: evs)
  end.

(* ----------------------------------------------------------------- *)
(** *** [select_images] *)

(** [[int(idx.strip()) for idx in selection.split(",")]]; [None] is the
    [ValueError] of the first piece that is no integer. *)
Definition parse_indices (selection : string) : option (list Z) :=
  mapM (fun idx => PyStr.int (PyStr.strip idx)) (PyStr.split "," selection).

(** How one pass through the body of the [while True] ends. *)
Inductive pass (A : Type) : Type :=
| Return (a : A)
| Again.
Arguments Return {A} a.
Arguments Again {A}.

(** The [for idx in indices] loop and the [if selected] after it. *)
Fixpoint select_by_index (image_files : list Path) (indices : list Z)
  (selected : list Path) : result (pass (list Path)) * list event :=
  match indices with
  | [] =>
      (Ok (match selected with [] => Again | _ => Return selected end), [])
  | idx :: rest =>
      if (1 <=? idx) && (idx <=? Z.of_nat (length image_files))
      then match image_files !! Z.to_nat (idx - 1) with
           | Some img => select_by_index image_files rest (selected ++ [img])
           | None =>
               (Raise (LibraryError "IndexError" "list index out of range"), [])
           end
      else (Ok (Return []), [Print ("Invalid index: " +:+ PyStr.of_int idx)])
  end.

(** [[img for img in image_files if selection.lower() in img.name.lower()]] *)
Definition name_matches (selection : string) (image_files : list Path)
  : list Path :=
  List.filter
    (fun img => PyStr.contains (PyStr.lower selection) (PyStr.lower (name img)))
    image_files.

Definition select_prompt : string := "Select image(s) [number or 'all']: ".

Fixpoint select_images (image_files : list Path)
  (pending : list stdin_event) : outcome (list Path) :=
  match pending with
  | [] => mkOutcome (Raise EOFError) [] [Prompt select_prompt]
  | CtrlC :: rest =>
      mkOutcome (Raise KeyboardInterrupt) rest [Prompt select_prompt]
  | Line text :: rest =>
      let selection := PyStr.strip text in
      emit [Prompt select_prompt]
        (if String.eqb selection ""
         then emit [Print "Please enter a selection."]
                (select_images image_files rest)
         else if String.eqb (PyStr.lower selection) "all"
         then mkOutcome (Ok image_files) rest []
         else
           match parse_indices selection with
           | Some indices =>
               match select_by_index image_files indices [] with
               | (Ok (Return selected), evs) => mkOutcome (Ok selected) rest evs
               | (Ok Again, evs) => emit evs (select_images image_files rest)
               | (Raise e, evs) => mkOutcome (Raise e) rest evs
               end
           | None =>
               match name_matches selection image_files with
               | [] =>
                   emit [Print ("Could not find image matching: " +:+ selection)]
                     (select_images image_files rest)
               | matches => mkOutcome (Ok matches) rest []
               end
           end)
  end.

(* ----------------------------------------------------------------- *)
(** *** [get_text_input] *)

Definition quit_tokens : list string := ["quit"; "exit"; "q"].

(** [None] is Python's [None], the sign to leave the session. *)
Definition get_text_input : IO (option string) :=
  write [Print (nl +:+ "Enter your question (or 'quit' to exit):")];;
  line ← input "> ";
  let text := PyStr.strip line in
  if bool_decide (PyStr.lower text ∈ quit_tokens) then mret None
  else if String.eqb text ""
  then write [Print "Please enter a question."];; mret (Some "")
  else mret (Some text).

(* ================================================================= *)
(** ** The model object and [configure_ps3_and_context_length] *)

Module Tokenizer.
Record t : Type := mk { model_max_length : Z }.
End Tokenizer.

Module Config.
(** [None]: the attribute holds Python's [None]. *)
Record t : Type := mk {
  model_max_length : option Z;
  tokenizer_model_max_length : option Z
}.
End Config.

(** The attributes of the loaded model the script reads or writes;
    [checkpoint] stands for everything else the object holds. *)
Record Model : Type := mkModel {
  num_look_close : option Z;
  num_token_look_close : option Z;
  max_select_num_each_scale : option (list Z);
    (* model.get_vision_tower().vision_tower.vision_model.max_select_num_each_scale *)
  look_close_mode : option string;
  smooth_selection_prob : option bool;
  config : Config.t;
  llm_config : Config.t;            (* model.llm.config *)
  tokenizer : Tokenizer.t;
  checkpoint : string
}.

Definition set_num_look_close (v : Z) (m : Model) : Model :=
  mkModel (Some v) (num_token_look_close m) (max_select_num_each_scale m)
    (look_close_mode m) (smooth_selection_prob m) (config m) (llm_config m)
    (tokenizer m) (checkpoint m).
Definition set_num_token_look_close (v : Z) (m : Model) : Model :=
  mkModel (num_look_close m) (Some v) (max_select_num_each_scale m)
    (look_close_mode m) (smooth_selection_prob m) (config m) (llm_config m)
    (tokenizer m) (checkpoint m).
Definition set_max_select_num_each_scale (v : list Z) (m : Model) : Model :=
  mkModel (num_look_close m) (num_token_look_close m) (Some v)
    (look_close_mode m) (smooth_selection_prob m) (config m) (llm_config m)
    (tokenizer m) (checkpoint m).
Definition set_look_close_mode (v : string) (m : Model) : Model :=
  mkModel (num_look_close m) (num_token_look_close m)
    (max_select_num_each_scale m) (Some v) (smooth_selection_prob m)
    (config m) (llm_config m) (tokenizer m) (checkpoint m).
Definition set_smooth_selection_prob (v : bool) (m : Model) : Model :=
  mkModel (num_look_close m) (num_token_look_close m)
    (max_select_num_each_scale m) (look_close_mode m) (Some v)
    (config m) (llm_config m) (tokenizer m) (checkpoint m).
Definition set_config (f : Config.t -> Config.t) (m : Model) : Model :=
  mkModel (num_look_close m) (num_token_look_close m)
    (max_select_num_each_scale m) (look_close_mode m)
    (smooth_selection_prob m) (f (config m)) (llm_config m) (tokenizer m)
    (checkpoint m).
Definition set_llm_config (f : Config.t -> Config.t) (m : Model) : Model :=
  mkModel (num_look_close m) (num_token_look_close m)
    (max_select_num_each_scale m) (look_close_mode m)
    (smooth_selection_prob m) (config m) (f (llm_config m)) (tokenizer m)
    (checkpoint m).
Definition set_tokenizer (f : Tokenizer.t -> Tokenizer.t) (m : Model) : Model :=
  mkModel (num_look_close m) (num_token_look_close m)
    (max_select_num_each_scale m) (look_close_mode m)
    (smooth_selection_prob m) (config m) (llm_config m) (f (tokenizer m))
    (checkpoint m).

Definition with_model_max_length (v : Z) (c : Config.t) : Config.t :=
  Config.mk (Some v) (Config.tokenizer_model_max_length c).
Definition with_tokenizer_model_max_length (v : Z) (c : Config.t) : Config.t :=
  Config.mk (Config.model_max_length c) (Some v).

(** Code that mutates the model object: the result, the object as the
    code left it (also when it raised), and what it logged. *)
Record mutated (A : Type) : Type := mkMutated {
  returned : result A;
  model_after : Model;
  logged : list event
}.
Arguments mkMutated {A} returned model_after logged.
Arguments returned {A} m.
Arguments model_after {A} m.
Arguments logged {A} m.

Definition Mut (A : Type) : Type := Model -> mutated A.

Global Instance Mut_ret : MRet Mut := fun A a m => mkMutated (Ok a) m [].
Global Instance Mut_bind : MBind Mut := fun A B k c m =>
  let r := c m in
  match returned r with
  | Ok a =>
      let r' := k a (model_after r) in
      mkMutated (returned r') (model_after r') (logged r ++ logged r')
  | Raise e => mkMutated (Raise e) (model_after r) (logged r)
  end.

Definition raise {A} (e : exn) : Mut A := fun m => mkMutated (Raise e) m [].
Definition log (ev : event) : Mut unit := fun m => mkMutated (Ok tt) m [ev].
Definition assign (f : Model -> Model) : Mut unit :=
  fun m => mkMutated (Ok tt) (f m) [].
Definition read {A} (f : Model -> A) : Mut A :=
  fun m => mkMutated (Ok (f m)) m [].

(** [int(s)] inside such code. *)
Definition int (s : string) : Mut Z :=
  match PyStr.int s with
  | Some n => mret n
  | None => raise (InvalidLiteral s)
  end.

(** [[int(x) for x in xs]] *)
Fixpoint ints (xs : list string) : Mut (list Z) :=
  match xs with
  | [] => mret []
  | x :: rest => n ← int x; ns ← ints rest; mret (n :: ns)
  end.

(** [if v is not None: body(v)] *)
Definition if_present {A} (v : option A) (body : A -> Mut unit) : Mut unit :=
  match v with
  | Some a => body a
  | None => mret tt
  end.

Definition configure_ps3_and_context_length (environ : gmap string string)
  : Mut unit :=
  let num_look_close := environ !! "NUM_LOOK_CLOSE" in
  let num_token_look_close := environ !! "NUM_TOKEN_LOOK_CLOSE" in
  let select_num_each_scale := environ !! "SELECT_NUM_EACH_SCALE" in
  let look_close_mode := environ !! "LOOK_CLOSE_MODE" in
  let smooth_selection_prob := environ !! "SMOOTH_SELECTION_PROB" in
  if_present num_look_close (fun v =>
    log (LogInfo ("Num look close: " +:+ v));;
    n ← int v; assign (set_num_look_close n));;
  if_present num_token_look_close (fun v =>
    log (LogInfo ("Num token look close: " +:+ v));;
    n ← int v; assign (set_num_token_look_close n));;
  if_present select_num_each_scale (fun v =>
    log (LogInfo ("Select num each scale: " +:+ v));;
    ns ← ints (PyStr.split "+" v);
    assign (set_max_select_num_each_scale ns));;
  if_present look_close_mode (fun v =>
    log (LogInfo ("Look close mode: " +:+ v));;
    assign (set_look_close_mode v));;
  if_present smooth_selection_prob (fun v =>
    log (LogInfo ("Smooth selection prob: " +:+ v));;
    b ← (if String.eqb (PyStr.lower v) "true" then mret true
         else if String.eqb (PyStr.lower v) "false" then mret false
         else raise (ValueError ("Invalid smooth selection prob: " +:+ v)));
    assign (set_smooth_selection_prob b));;
  context_length ← read (fun m => Tokenizer.model_max_length (tokenizer m));
  context_length ←
    match num_look_close with
    | Some v => n ← int v; mret (Z.max context_length (n * 2560 / 4 + 1024))
    | None => mret context_length
    end;
  context_length ←
    match num_token_look_close with
    | Some v => n ← int v; mret (Z.max context_length (n / 4 + 1024))
    | None => mret context_length
    end;
  current ← read (fun m => Tokenizer.model_max_length (tokenizer m));
  let context_length := Z.max current context_length in
  assign (set_config (with_model_max_length context_length));;
  assign (set_config (with_tokenizer_model_max_length context_length));;
  assign (set_llm_config (with_model_max_length context_length));;
  assign (set_llm_config (with_tokenizer_model_max_length context_length));;
  assign (set_tokenizer (fun _ => Tokenizer.mk context_length)).

(* ================================================================= *)
(** ** [main]: start-up and the interactive session loop *)

(** The parsed command line. *)
Record Args : Type := mkArgs {
  model_path : string;
  images_dir : string;
  conv_mode : string;
  lora_path : option string
}.

(** Everything outside the script that one run depends on. *)
Record World : Type := mkWorld {
  environ : gmap string string;                    (* os.environ *)
  load : string -> option string -> result Model;  (* llava.load(path, model_base=...) *)
  conv_templates : gmap string string;             (* clib.conv_templates *)
  fs : string -> fs_node;
  st_size : Path -> option Z;                      (* path.stat().st_size *)
  generate_content : Model -> list prompt_item -> result string;
  keyboard : list stdin_event
}.

(** How the process ends. *)
Inductive process_end : Type :=
| Exit (status : Z)      (* sys.exit(status), or the end of the script: 0 *)
| Traceback (e : exn)    (* an exception nothing caught *)
| Forever.               (* the session loop never ends *)

(** How the interpreter ends on an exception nothing caught: with the
    status of a [SystemExit], with a traceback for any other. *)
Definition uncaught (e : exn) : process_end :=
  match e with
  | SystemExit status => Exit status
  | _ => Traceback e
  end.

(** ["=" * 60] *)
Definition rule : string :=
  fold_right String.append EmptyString (replicate 60 "=").

(** How one pass through the body of the session loop leaves it. *)
Inductive turn_end : Type := Continue | Break.

(** [model.generate_content(prompt)] *)
Definition generate (w : World) (model : Model) (prompt : list prompt_item)
  : IO string := fun pending =>
  mkOutcome (generate_content w model prompt) pending [Generate prompt].

(** The body of the [try] in the session loop. *)
Definition turn (w : World) (model : Model) (image_files : list Path)
  : IO turn_end :=
  display_images (st_size w) image_files;;
  selected_images ← select_images image_files;
  match selected_images with
  | [] => mret Continue
  | _ =>
      write (Print (nl +:+ "Selected "
                    +:+ PyStr.of_int (Z.of_nat (length selected_images))
                    +:+ " image(s):")
             :: ((fun img => Print ("  - " +:+ name img)) <$> selected_images));;
      text ← get_text_input;
      match text with
      | None => write [Print (nl +:+ "Exiting...")];; mret Break
      | Some EmptyString => mret Continue
      | Some text =>
          let prompt :=
            ((fun img_path => Image (Path_str img_path)) <$> selected_images)
            ++ [Text text] in
          write [Print (nl +:+ "[Processing...]")];;
          response ← generate w model prompt;
          write [Print (nl +:+ "=== Response ===");
                 Print response;
                 Print (rule +:+ nl)];;
          mret Continue
      end
  end.

Definition after (evs : list event) (r : process_end * list event)
  : process_end * list event :=
  (r.1, evs ++ r.2).

(** The [while True] of [main] with its two handlers: the first catches
    [KeyboardInterrupt], the second what derives from [Exception]; any
    other exception leaves the loop and [main].  A pass that goes on to
    the next one without having read anything from the terminal leaves
    the loop where it started, so that it repeats without end. *)
Equations? session_loop (w : World) (model : Model) (image_files : list Path)
  (pending : list stdin_event) : process_end * list event
  by wf (length pending) lt :=
  session_loop w model image_files pending :=
    let o := turn w model image_files pending in
    let next (handled : list event) : process_end * list event :=
      match decide (length (remaining o) < length pending)%nat with
      | left _ =>
          after (output o ++ handled)
            (session_loop w model image_files (remaining o))
      | right _ => (Forever, output o ++ handled)
      end in
    match value o with
    | Ok Break => (Exit 0, output o)
    | Ok Continue => next []
    | Raise KeyboardInterrupt =>
        (Exit 0, output o ++ [Print (nl +:+ nl +:+ "Interrupted. Exiting...")])
    | Raise e =>
        if is_Exception e
        then next [LogInferenceError e; PrintInferenceError e]
        else (uncaught e, output o)
    end.
Proof. all: lia. Qed.

Definition banner : list event :=
  [Print (nl +:+ rule); Print "  VILA Local Image Analyzer"; Print (rule +:+ nl)].

Definition main (args : Args) (w : World) : process_end * list event :=
  after (banner ++ [LogInfo ("Loading model from: " +:+ model_path args)])
  match
    match lora_path args with
    | None => load w (model_path args) None
    | Some lora => load w lora (Some (model_path args))
    end
  with
  | Raise e => (uncaught e, [])
  | Ok model =>
      let configured := configure_ps3_and_context_length (environ w) model in
      after (LogInfo "Model loaded successfully" :: logged configured)
      match returned configured with
      | Raise e => (uncaught e, [])
      | Ok _ =>
          let model := model_after configured in
          match conv_templates w !! conv_mode args with
          | None => (Traceback (KeyError (conv_mode args)), [])
          | Some _ =>
              let '(found, looked) := find_images (fs w) (images_dir args) in
              after (LogInfo ("Using conversation mode: " +:+ conv_mode args)
                     :: looked)
              match found with
              | Raise e => (uncaught e, [])
              | Ok [] =>
                  (Exit 1,
                   [LogError ("No images found in " +:+ images_dir args);
                    LogInfo "Please add some images (.jpg, .jpeg, .png) to the images/ folder"])
              | Ok image_files =>
                  after
                    [LogInfo ("Found "
                              +:+ PyStr.of_int (Z.of_nat (length image_files))
                              +:+ " image(s) in " +:+ images_dir args);
                     Print (nl +:+ "Interactive mode started. Type 'quit' to exit."
                            +:+ nl)]
                    (session_loop w model image_files (keyboard w))
              end
          end
      end
  end.

(* ================================================================= *)
(** ** The remote client: [src/client.py] *)

Module Client.

(** A JSON document, and the Python value [response.json()] makes of
    it; an object is a [dict] with string keys. *)
#[warnings="-register-all"] Inductive json : Type :=
| JNull
| JBool (b : bool)
| JNumber (n : Z)
| JString (s : string)
| JArray (items : list json)
| JObject (members : gmap string json).

(** The arguments of one call of [requests.post(url, headers=, json=)]. *)
Record request : Type := mkRequest {
  method : string;
  target : string;
  request_headers : gmap string string;
  json_body : json
}.

(** What the script does that can be observed from outside. *)
Inductive action : Type :=
| Send (r : request)
| PrintValue (v : json).     (* print(v) *)

Definition url : string := "http://localhost:8000/chat/completions".

Definition headers : gmap string string :=
  {[ "Content-Type" := "application/json";
     "Authorization" := "Bearer fake-key" ]}.

Definition data : json :=
  JObject
    {[ "model" := JString "NVILA-Lite-8B";
       "messages" :=
         JArray
           [ JObject
               {[ "role" := JString "user";
                  "content" :=
                    JArray
                      [ JObject
                          {[ "type" := JString "text";
                             "text" := JString "What's in this image?" ]};
                        JObject
                          {[ "type" := JString "image_url";
                             "image_url" :=
                               JObject
                                 {[ "url" :=
                                      JString "https://resources.chimhaha.net/article/1697450293398-9qc8qommtjf.jpg" ]} ]} ] ]} ] ]}.

(** [v[key]] for a string key. *)
Definition item (v : json) (key : string) : result json :=
  match v with
  | JObject members =>
      match members !! key with
      | Some x => Ok x
      | None => Raise (KeyError key)
      end
  | _ => Raise (LibraryError "TypeError" "indices must be integers")
  end.

(** [v[0]] *)
Definition first (v : json) : result json :=
  match v with
  | JArray (x :: _) => Ok x
  | JArray [] => Raise (LibraryError "IndexError" "list index out of range")
  | JString (String c _) => Ok (JString (String c EmptyString))
  | JString EmptyString =>
      Raise (LibraryError "IndexError" "string index out of range")
  | JObject _ => Raise (KeyError "0")
  | _ => Raise (LibraryError "TypeError" "object is not subscriptable")
  end.

Definition and_then {A B} (r : result A) (k : A -> result B) : result B :=
  match r with
  | Ok a => k a
  | Raise e => Raise e
  end.

(** [result["choices"][0]["message"]["content"]] *)
Definition answer (parsed : json) : result json :=
  and_then (item parsed "choices") (fun choices =>
  and_then (first choices) (fun choice =>
  and_then (item choice "message") (fun message =>
  item message "content"))).

(** The script.  [server] is the far end: the outcome of the POST and of
    [response.json()] taken together, a parsed body or the exception
    that one of the two raises. *)
Definition client (server : request -> result json)
  : process_end * list action :=
  let r := mkRequest "POST" url headers data in
  match server r with
  | Raise e => (uncaught e, [Send r])
  | Ok parsed =>
      match answer parsed with
      | Raise e => (uncaught e, [Send r])
      | Ok content => (Exit 0, [Send r; PrintValue content])
      end
  end.

End Client.

(* ================================================================= *)
(** ** Vocabulary of the specification *)

(** The ten suffixes [find_images] globs for, in the order of its loop. *)
Definition glob_suffixes : list string :=
  flat_map (fun ext => [ext; PyStr.upper ext]) supported_extensions.

(** A file name one of the globs of [find_images] matches. *)
Definition matches_glob (file : string) : bool :=
  existsb (fun suffix => PyStr.endswith suffix file) glob_suffixes.

(** A file name that ends with a supported extension when letter case is
    ignored. *)
Definition has_supported_extension (file : string) : bool :=
  existsb (fun ext => PyStr.endswith ext (PyStr.lower file))
    supported_extensions.

(** The value an attribute holds after an override that may be absent. *)
Definition overridden {A : Type} (new old : option A) : option A :=
  match new with
  | Some a => Some a
  | None => old
  end.

(** The boolean a value of [SMOOTH_SELECTION_PROB] stands for. *)
Definition flag_of (v : string) : option bool :=
  if String.eqb (PyStr.lower v) "true" then Some true
  else if String.eqb (PyStr.lower v) "false" then Some false
  else None.

(** The lower bounds on the context length that a look-close count and a
    token-look-close count, each where it is given, set. *)
Definition bounds_of (look_close token_look_close : option Z) : list Z :=
  match look_close with
  | Some n => [n * 2560 / 4 + 1024]
  | None => []
  end ++
  match token_look_close with
  | Some n => [n / 4 + 1024]
  | None => []
  end.

(** The bounds that the variables present in the environment set. *)
Definition present_bounds (environ : gmap string string) : list Z :=
  bounds_of (environ !! "NUM_LOOK_CLOSE" ≫= PyStr.int)
    (environ !! "NUM_TOKEN_LOOK_CLOSE" ≫= PyStr.int).

(** The maximum of a limit and a list of lower bounds. *)
Definition max_with (limit : Z) (bounds : list Z) : Z :=
  fold_right Z.max limit bounds.

(** An environment whose five variables, where present, can be read:
    integers where integers are expected, [true] or [false] for the flag. *)
Definition readable (environ : gmap string string) : bool :=
  match environ !! "NUM_LOOK_CLOSE" with
  | Some v => bool_decide (is_Some (PyStr.int v))
  | None => true
  end &&
  match environ !! "NUM_TOKEN_LOOK_CLOSE" with
  | Some v => bool_decide (is_Some (PyStr.int v))
  | None => true
  end &&
  match environ !! "SELECT_NUM_EACH_SCALE" with
  | Some v => bool_decide (is_Some (mapM PyStr.int (PyStr.split "+" v)))
  | None => true
  end &&
  match environ !! "SMOOTH_SELECTION_PROB" with
  | Some v => bool_decide (is_Some (flag_of v))
  | None => true
  end.

(** The first string of a list that [int] rejects. *)
Fixpoint first_invalid (xs : list string) : string :=
  match xs with
  | [] => ""
  | x :: rest => if PyStr.int x is Some _ then first_invalid rest else x
  end.

(** The model object as the specification describes it after the
    overrides [look_close], [token_look_close], [scales], [mode] and
    [flag], each where it is given: an override replaces its attribute,
    and the five context-length fields hold the maximum of the tokenizer's
    limit and the bounds given. *)
Definition configured_from (look_close token_look_close : option Z)
  (scales : option (list Z)) (mode : option string) (flag : option bool)
  (m : Model) : Model :=
  let context_length :=
    max_with (Tokenizer.model_max_length (tokenizer m))
      (bounds_of look_close token_look_close) in
  mkModel
    (overridden look_close (num_look_close m))
    (overridden token_look_close (num_token_look_close m))
    (overridden scales (max_select_num_each_scale m))
    (overridden mode (look_close_mode m))
    (overridden flag (smooth_selection_prob m))
    (Config.mk (Some context_length) (Some context_length))
    (Config.mk (Some context_length) (Some context_length))
    (Tokenizer.mk context_length)
    (checkpoint m).

(** The same, with the overrides read from the environment. *)
Definition configured (environ : gmap string string) (m : Model) : Model :=
  configured_from
    (environ !! "NUM_LOOK_CLOSE" ≫= PyStr.int)
    (environ !! "NUM_TOKEN_LOOK_CLOSE" ≫= PyStr.int)
    (environ !! "SELECT_NUM_EACH_SCALE"
       ≫= fun v => mapM PyStr.int (PyStr.split "+" v))
    (environ !! "LOOK_CLOSE_MODE")
    (environ !! "SMOOTH_SELECTION_PROB" ≫= flag_of)
    m.

(** The model after an override that may be absent. *)
Definition override_with {A : Type} (set : A -> Model -> Model)
  (o : option A) (m : Model) : Model :=
  match o with
  | Some a => set a m
  | None => m
  end.

(** Log entries written before a piece of code ran. *)
Definition prepend {A : Type} (entries : list event) (r : mutated A)
  : mutated A :=
  mkMutated (returned r) (model_after r) (entries ++ logged r).


(** The statements of [configure_ps3_and_context_length], named one by
    one: the five overrides, and the second half of the function from the
    comment "Adjust the max context length" on.  [configure_steps] below
    shows that the function is their sequence. *)
Definition int_override (msg : string) (set : Z -> Model -> Model)
  (o : option string) : Mut unit :=
  if_present o (fun v => log (LogInfo (msg +:+ v));; n ← int v; assign (set n)).

Definition scales_override (o : option string) : Mut unit :=
  if_present o (fun v =>
    log (LogInfo ("Select num each scale: " +:+ v));;
    ns ← ints (PyStr.split "+" v);
    assign (set_max_select_num_each_scale ns)).

Definition mode_override (o : option string) : Mut unit :=
  if_present o (fun v =>
    log (LogInfo ("Look close mode: " +:+ v));;
    assign (set_look_close_mode v)).

Definition flag_override (o : option string) : Mut unit :=
  if_present o (fun v =>
    log (LogInfo ("Smooth selection prob: " +:+ v));;
    b ← (if String.eqb (PyStr.lower v) "true" then mret true
         else if String.eqb (PyStr.lower v) "false" then mret false
         else raise (ValueError ("Invalid smooth selection prob: " +:+ v)));
    assign (set_smooth_selection_prob b)).

Definition adjust_context_length (num_look_close num_token_look_close : option string)
  : Mut unit :=
  context_length ← read (fun m => Tokenizer.model_max_length (tokenizer m));
  context_length ←
    match num_look_close with
    | Some v => n ← int v; mret (Z.max context_length (n * 2560 / 4 + 1024))
    | None => mret context_length
    end;
  context_length ←
    match num_token_look_close with
    | Some v => n ← int v; mret (Z.max context_length (n / 4 + 1024))
    | None => mret context_length
    end;
  current ← read (fun m => Tokenizer.model_max_length (tokenizer m));
  let context_length := Z.max current context_length in
  assign (set_config (with_model_max_length context_length));;
  assign (set_config (with_tokenizer_model_max_length context_length));;
  assign (set_llm_config (with_model_max_length context_length));;
  assign (set_llm_config (with_tokenizer_model_max_length context_length));;
  assign (set_tokenizer (fun _ => Tokenizer.mk context_length)).

(** Code that leaves the part [f] of the model as it was, whether it
    returns or raises, and logs only entries satisfying [P]. *)
Definition respects {A B : Type} (f : Model -> B) (P : event -> Prop)
  (c : Mut A) : Prop :=
  forall m, f (model_after (c m)) = f m /\ Forall P (logged (c m)).

Definition is_LogInfo (ev : event) : Prop := exists msg, ev = LogInfo msg.

(** A run that ends in a [ValueError]. *)
Definition raises_ValueError {A : Type} (r : mutated A) : Prop :=
  exists e, returned r = Raise e /\ is_ValueError e = true.

(** Code that raises nothing but [ValueError]. *)
Definition only_ValueError {A : Type} (c : Mut A) : Prop :=
  forall m e, returned (c m) = Raise e -> is_ValueError e = true.

(** [llava.load] as [main] calls it, with or without LoRA weights. *)
Definition loaded (args : Args) (w : World) : result Model :=
  match lora_path args with
  | None => load w (model_path args) None
  | Some lora => load w lora (Some (model_path args))
  end.

(** The start-up of [main] went through: the model was loaded, configured
    into [model], and the conversation mode exists. *)
Definition started (args : Args) (w : World) (model : Model) : Prop :=
  exists model0,
    loaded args w = Ok model0
    /\ returned (configure_ps3_and_context_length (environ w) model0) = Ok tt
    /\ model_after (configure_ps3_and_context_length (environ w) model0) = model
    /\ is_Some (conv_templates w !! conv_mode args).

Definition farewell_quit : event := Print (nl +:+ "Exiting...").
Definition farewell_interrupt : event :=
  Print (nl +:+ nl +:+ "Interrupted. Exiting...").

(** What the two handlers of the session loop write for an exception. *)
Definition handled (v : result turn_end) : list event :=
  match v with
  | Raise e => [LogInferenceError e; PrintInferenceError e]
  | Ok _ => []
  end.

(** What [print] and the logger write, as opposed to a prompt or a call
    of the model. *)
Definition is_report (ev : event) : Prop :=
  exists text, ev = Print text \/ ev = LogInfo text \/ ev = LogError text.

(** A pass after which the loop goes on: one that returned [Continue],
    or raised what the second handler catches. *)
Definition goes_on (v : result turn_end) : bool :=
  match v with
  | Ok Continue => true
  | Ok Break => false
  | Raise e => is_Exception e
  end.

(** How a session comes to its end. *)
Inductive ending : Type := ByQuit | ByInterrupt.

(** The session that starts with [pending] on the terminal ends, after
    some number of passes after which the loop goes on, with a pass that
    returns [Break] or one that raises [KeyboardInterrupt]. *)
Inductive session_ends (w : World) (model : Model) (image_files : list Path)
  : list stdin_event -> ending -> Prop :=
| ends_by_quit pending :
    value (turn w model image_files pending) = Ok Break ->
    session_ends w model image_files pending ByQuit
| ends_by_interrupt pending :
    value (turn w model image_files pending) = Raise KeyboardInterrupt ->
    session_ends w model image_files pending ByInterrupt
| ends_later pending how :
    goes_on (value (turn w model image_files pending)) = true ->
    session_ends w model image_files
      (remaining (turn w model image_files pending)) how ->
    session_ends w model image_files pending how.

(** An index the bounds check of [select_images] turns down. *)
Definition out_of_range (image_files : list Path) (idx : Z) : Prop :=
  ~ (1 <= idx <= Z.of_nat (length image_files)).

(** The lines [display_images] prints for the files of a catalog, the
    first of them under the index [idx]. *)
Definition listing (st_size : Path -> option Z) (idx : Z)
  (image_files : list Path) : list event :=
  imap (fun i img =>
          PrintImage (idx + Z.of_nat i) (name img) (default 0 (st_size img)))
    image_files.

(** A run that ends in a [ValueError] and leaves the part [f] of the
    model at the value [x]. *)
Definition raises_keeping {A B : Type} (f : Model -> B) (x : B)
  (r : mutated A) : Prop :=
  exists e, returned r = Raise e /\ is_ValueError e = true
            /\ f (model_after r) = x.

(** The prompts the model was called with, in the order of the calls. *)
Definition calls (evs : list event) : list (list prompt_item) :=
  omap (fun ev => match ev with Generate prompt => Some prompt | _ => None end)
    evs.

(** The prompt one pass builds from the selected images and the question. *)
Definition prompt_of (selected : list Path) (text : string)
  : list prompt_item :=
  ((fun img_path => Image (Path_str img_path)) <$> selected) ++ [Text text].

(** A prompt made of entries of the catalog, at least one, and of a
    question typed on the terminal that is neither empty nor a quit
    token once stripped. *)
Definition asked (image_files : list Path) (pending : list stdin_event)
  (prompt : list prompt_item) : Prop :=
  exists selected raw,
    prompt = prompt_of selected (PyStr.strip raw)
    /\ selected <> []
    /\ Forall (fun img => In img image_files) selected
    /\ In (Line raw) pending
    /\ PyStr.strip raw <> ""
    /\ (PyStr.lower (PyStr.strip raw) ∉ quit_tokens).

(** The line logged for a variable that is present. *)
Definition info_line (label : string) (o : option string) : list event :=
  match o with
  | Some v => [LogInfo (label +:+ v)]
  | None => []
  end.

(** The lines logged for the variables present in the environment, in
    the order in which the function looks at them. *)
Definition info_lines (environ : gmap string string) : list event :=
  info_line "Num look close: " (environ !! "NUM_LOOK_CLOSE")
  ++ info_line "Num token look close: " (environ !! "NUM_TOKEN_LOOK_CLOSE")
  ++ info_line "Select num each scale: " (environ !! "SELECT_NUM_EACH_SCALE")
  ++ info_line "Look close mode: " (environ !! "LOOK_CLOSE_MODE")
  ++ info_line "Smooth selection prob: " (environ !! "SMOOTH_SELECTION_PROB").

(* ================================================================= *)
(** ** Example inputs *)

Definition mixed_case_dir : string -> fs_node :=
  fun _ => Directory ["b.png"; "a.Jpg"; "c.txt"; "d.JPEG"].

Definition look_close_100 : gmap string string := {[ "NUM_LOOK_CLOSE" := "100" ]}.

Definition two_overrides : gmap string string :=
  {[ "NUM_TOKEN_LOOK_CLOSE" := "2048"; "SMOOTH_SELECTION_PROB" := "True" ]}.

Definition smooth_maybe : gmap string string :=
  {[ "SMOOTH_SELECTION_PROB" := "maybe" ]}.

Definition loaded_model : Model :=
  mkModel None None None None None (Config.mk None None)
    (Config.mk (Some 4096) None) (Tokenizer.mk 4096) "NVILA-Lite-8B".

Definition default_args : Args :=
  mkArgs "NVILA-Lite-8B" "images" "vicuna_v1" None.

(** A world in which the model loads, the directory [images] is
    [images_node], every file has 2048 bytes and the model answers. *)
Definition example_world (environ : gmap string string) (images_node : fs_node)
  (keyboard : list stdin_event) : World :=
  mkWorld environ (fun _ _ => Ok loaded_model)
    {[ "vicuna_v1" := "vicuna_v1 template" ]}
    (fun path => if String.eqb path "images" then images_node else Absent)
    (fun _ => Some 2048)
    (fun _ _ => Ok "A cat.")
    keyboard.

Definition two_images : fs_node := Directory ["b.png"; "a.jpg"; "c.txt"].

(** A world like [example_world] in which the generation calls
    [sys.exit(3)]. *)
Definition exiting_world (keyboard : list stdin_event) : World :=
  mkWorld ∅ (fun _ _ => Ok loaded_model)
    {[ "vicuna_v1" := "vicuna_v1 template" ]}
    (fun path => if String.eqb path "images" then two_images else Absent)
    (fun _ => Some 2048)
    (fun _ _ => Raise (SystemExit 3))
    keyboard.

(** A numeral of 4301 digits, one more than [int] reads. *)
Definition beyond_int_limit : string :=
  fold_right String.append EmptyString (replicate 4301 "1").

(** A name of 300 letters, longer than a file system allows: no such
    directory exists, and [os.stat] fails on it with ENAMETOOLONG. *)
Definition long_name : string :=
  fold_right String.append EmptyString (replicate 300 "a").

Definition long_name_world : World :=
  mkWorld ∅ (fun _ _ => Ok loaded_model)
    {[ "vicuna_v1" := "vicuna_v1 template" ]}
    (fun path => if String.eqb path long_name
                 then FsFails "OSError" "[Errno 36] File name too long"
                 else Absent)
    (fun _ => Some 2048)
    (fun _ _ => Ok "A cat.")
    [].

(** A server that answers with two choices. *)
Definition two_choices (r : Client.request) : result Client.json :=
  Ok (Client.JObject
        {[ "choices" :=
             Client.JArray
               [ Client.JObject
                   {[ "message" :=
                        Client.JObject {[ "content" := Client.JString "A logo." ]} ]};
                 Client.JObject
                   {[ "message" :=
                        Client.JObject {[ "content" := Client.JString "Unused." ]} ]} ] ]}).

(* ================================================================= *)
(** * Properties *)

(** ** Strings *)

Section StringFacts.

Lemma startswith_refl s : PyStr.startswith s s = true.
Proof.
  induction s as [|c s IH]; simpl; [done|].
  by rewrite Ascii.eqb_refl, IH.
Qed.

Lemma startswith_app p s :
  PyStr.startswith p s = true <-> exists t, s = p +:+ t.
Proof.
  revert s. induction p as [|a p IH]; intros s; simpl.
  - split; [intros _; by exists s|done].
  - destruct s as [|b s]; simpl.
    + split; [done|intros [t Ht]; discriminate].
    + rewrite andb_true_iff, Ascii.eqb_eq, IH. split.
      * intros [-> [t ->]]. by exists t.
      * intros [t Ht]. injection Ht as -> ->. eauto.
Qed.

(** Two prefixes of one string: one is a prefix of the other. *)
Lemma startswith_comparable p q s :
  PyStr.startswith p s = true -> PyStr.startswith q s = true ->
  PyStr.startswith p q || PyStr.startswith q p = true.
Proof.
  revert q s. induction p as [|a p IH]; intros q s; [done|].
  destruct q as [|b q]; [intros _ _; apply orb_true_r|].
  destruct s as [|c s]; simpl; [done|].
  rewrite !andb_true_iff, !Ascii.eqb_eq.
  intros [-> Hp] [-> Hq]. rewrite Ascii.eqb_refl. simpl.
  eauto.
Qed.

(** [needle in hay]: the needle occurs somewhere in the hay. *)
Lemma contains_spec needle hay :
  PyStr.contains needle hay = true <->
  exists before behind, hay = before +:+ needle +:+ behind.
Proof.
  induction hay as [|c hay IH].
  - simpl. rewrite orb_false_r, startswith_app. split.
    + intros [t Ht]. by exists "", t.
    + intros [[|b before] [behind H]]; [by exists behind|discriminate].
  - cbn [PyStr.contains]. rewrite orb_true_iff, IH, startswith_app. split.
    + intros [[t Ht]|(before & behind & Ht)].
      * by exists "", t.
      * exists (String c before), behind. by rewrite Ht.
    + intros ([|b before] & behind & Ht).
      * left. by exists behind.
      * right. injection Ht as -> ->. eauto.
Qed.

Lemma lower_char_is_a c : PyStr.lower_char c = "a"%char -> c = "a"%char \/ c = "A"%char.
Proof. destruct c as [[] [] [] [] [] [] [] []]; vm_compute; intros; auto; discriminate. Qed.

Lemma lower_char_is_l c : PyStr.lower_char c = "l"%char -> c = "l"%char \/ c = "L"%char.
Proof. destruct c as [[] [] [] [] [] [] [] []]; vm_compute; intros; auto; discriminate. Qed.

(** What [lstrip] leaves does not begin with white space. *)
Lemma lstrip_all_space s :
  PyStr.lstrip s = "" <-> Forall (fun c => PyStr.isspace c = true) (list_ascii_of_string s).
Proof.
  induction s as [|c s IH]; simpl.
  - split; [constructor|done].
  - destruct (PyStr.isspace c) eqn:Hc.
    + rewrite IH. split; [by constructor|by inversion 1].
    + split; [done|]. inversion 1; congruence.
Qed.

Lemma rstrip_all_space s :
  PyStr.rstrip s = "" <-> Forall (fun c => PyStr.isspace c = true) (list_ascii_of_string s).
Proof.
  induction s as [|c s IH]; simpl.
  - split; [constructor|done].
  - destruct (PyStr.rstrip s) eqn:Hr.
    + destruct (PyStr.isspace c) eqn:Hc.
      * split; [intros _; constructor; [done|by apply IH]|done].
      * split; [done|]. inversion 1; congruence.
    + split; [done|]. inversion 1 as [|?? _ Hs]. apply IH in Hs. done.
Qed.

Lemma lstrip_suffix s : exists pre, s = pre +:+ PyStr.lstrip s /\
  Forall (fun c => PyStr.isspace c = true) (list_ascii_of_string pre).
Proof.
  induction s as [|c s (pre & IH & Hpre)]; simpl.
  - by exists "".
  - destruct (PyStr.isspace c) eqn:Hc.
    + exists (String c pre). split; [|by constructor].
      change (String c s = String c (pre +:+ PyStr.lstrip s)). congruence.
    + by exists "".
Qed.

(** [s.strip()] is empty exactly for a string of white space only. *)
Lemma strip_empty_iff s :
  PyStr.strip s = "" <-> Forall (fun c => PyStr.isspace c = true) (list_ascii_of_string s).
Proof.
  unfold PyStr.strip. rewrite rstrip_all_space.
  destruct (lstrip_suffix s) as (pre & Hs & Hpre).
  rewrite Hs at 2.
  assert (Happ : forall a b, list_ascii_of_string (a +:+ b)
                   = (list_ascii_of_string a ++ list_ascii_of_string b)%list).
  { intros a b. induction a as [|x a IH]; [done|].
    change (x :: list_ascii_of_string (a +:+ b)
            = x :: (list_ascii_of_string a ++ list_ascii_of_string b)%list).
    congruence. }
  rewrite Happ, Forall_app. tauto.
Qed.

End StringFacts.

(* ================================================================= *)
(** ** Image catalog discovery *)

Section Discovery.

Lemma string_app_assoc (a b c : string) : (a +:+ b) +:+ c = a +:+ b +:+ c.
Proof.
  induction a as [|x a IH]; [done|].
  change (String x ((a +:+ b) +:+ c) = String x (a +:+ b +:+ c)). congruence.
Qed.

Lemma string_app_nil_r (a : string) : a +:+ "" = a.
Proof.
  induction a as [|x a IH]; [done|].
  change (String x (a +:+ "") = String x a). congruence.
Qed.

Lemma rev_app_spec s t : String.rev_app s t = String.rev s +:+ t.
Proof.
  revert t. induction s as [|c s IH]; intros t; [done|].
  unfold String.rev. simpl. rewrite (IH (String c t)), (IH (String c "")).
  by rewrite string_app_assoc.
Qed.

Lemma rev_app_distr s t : String.rev (s +:+ t) = String.rev t +:+ String.rev s.
Proof.
  induction s as [|c s IH].
  - by rewrite string_app_nil_r.
  - change (String.rev_app (s +:+ t) (String c "")
            = String.rev t +:+ String.rev_app s (String c "")).
    by rewrite !rev_app_spec, IH, string_app_assoc.
Qed.

Lemma rev_involutive s : String.rev (String.rev s) = s.
Proof.
  induction s as [|c s IH]; [done|].
  change (String.rev (String.rev_app s (String c "")) = String c s).
  by rewrite rev_app_spec, rev_app_distr, IH.
Qed.

(** [s.endswith(p)]: the string is something followed by [p]. *)
Lemma endswith_spec p s :
  PyStr.endswith p s = true <-> exists t, s = t +:+ p.
Proof.
  unfold PyStr.endswith. rewrite startswith_app. split.
  - intros [t Ht]. exists (String.rev t).
    by rewrite <-(rev_involutive s), Ht, rev_app_distr, rev_involutive.
  - intros [t ->]. exists (String.rev t). apply rev_app_distr.
Qed.

Lemma lower_app s t : PyStr.lower (s +:+ t) = PyStr.lower s +:+ PyStr.lower t.
Proof.
  induction s as [|c s IH]; [done|].
  change (String (PyStr.lower_char c) (PyStr.lower (s +:+ t))
          = String (PyStr.lower_char c) (PyStr.lower s +:+ PyStr.lower t)).
  congruence.
Qed.

(** Every name a glob matches has a supported extension up to case. *)
Lemma matches_glob_supported file :
  matches_glob file = true -> has_supported_extension file = true.
Proof.
  unfold matches_glob, has_supported_extension.
  rewrite !existsb_exists. intros (suffix & Hin & Hends).
  exists (PyStr.lower suffix). split.
  - assert (Hall : forallb (fun s =>
              existsb (String.eqb (PyStr.lower s)) supported_extensions)
              glob_suffixes = true) by (by vm_compute).
    rewrite forallb_forall in Hall. apply Hall in Hin.
    apply existsb_exists in Hin as (ext & Hext & Heq).
    by apply String.eqb_eq in Heq as ->.
  - apply endswith_spec in Hends as [t ->]. apply endswith_spec.
    exists (PyStr.lower t). apply lower_app.
Qed.

(** Two suffixes of the loop never match the same name. *)
Lemma glob_suffixes_exclusive p q file :
  In p glob_suffixes -> In q glob_suffixes ->
  PyStr.endswith p file = true -> PyStr.endswith q file = true -> p = q.
Proof.
  intros Hp Hq Hpf Hqf.
  pose proof (startswith_comparable _ _ _ Hpf Hqf) as Hc.
  assert (Hall : forallb (fun p => forallb (fun q =>
            implb (PyStr.startswith (String.rev p) (String.rev q)
                   || PyStr.startswith (String.rev q) (String.rev p))
                  (String.eqb p q)) glob_suffixes) glob_suffixes = true)
    by reflexivity.
  rewrite forallb_forall in Hall. specialize (Hall p Hp).
  rewrite forallb_forall in Hall. specialize (Hall q Hq).
  rewrite Hc in Hall. by apply String.eqb_eq.
Qed.

Context {A : Type}.

Lemma filter_exclusive_app (g h : A -> bool) (l : list A) :
  (forall x, g x = true -> h x = true -> False) ->
  List.filter g l ++ List.filter h l ≡ₚ List.filter (fun x => g x || h x) l.
Proof.
  intros Hex. induction l as [|x l IH]; simpl; [done|].
  destruct (g x) eqn:Hg, (h x) eqn:Hh; simpl.
  - destruct (Hex x Hg Hh).
  - by rewrite IH.
  - by rewrite <-Permutation_middle, IH.
  - done.
Qed.

Lemma flat_map_filter_exclusive {P : Type} (f : P -> A -> bool)
  (ps : list P) (l : list A) :
  NoDup ps ->
  (forall p q x, In p ps -> In q ps -> f p x = true -> f q x = true -> p = q) ->
  flat_map (fun p => List.filter (f p) l) ps
    ≡ₚ List.filter (fun x => existsb (fun p => f p x) ps) l.
Proof.
  intros Hnd Hex. induction ps as [|p ps IH]; simpl.
  - induction l; simpl; auto.
  - apply NoDup_cons in Hnd as [Hp Hnd].
    rewrite IH by (auto; intros; eapply Hex; simpl; eauto).
    apply filter_exclusive_app. intros x Hpx Hx.
    apply existsb_exists in Hx as (q & Hq & Hqx).
    apply Hp, list_elem_of_In.
    by rewrite (Hex p q x) by (simpl; auto).
Qed.

Lemma flat_map_pairs {B : Type} (g : B -> list A) (u : B -> B) (l : list B) :
  flat_map (fun x => g x ++ g (u x)) l
  = flat_map g (flat_map (fun x => [x; u x]) l).
Proof.
  induction l as [|x l IH]; simpl; [done|].
  by rewrite IH, (assoc_L (++)).
Qed.

Lemma flat_map_fmap {B C : Type} (f : A -> C) (g : B -> list A) (l : list B) :
  flat_map (fun x => f <$> g x) l = f <$> flat_map g l.
Proof.
  induction l as [|x l IH]; simpl; [done|]. by rewrite fmap_app, IH.
Qed.

End Discovery.

Global Instance Path_le_total : Total Path_le.
Proof.
  intros p q. unfold Path_le, Path_leb.
  rewrite (String.eqb_sym (parent q)).
  destruct (String.eqb (parent p) (parent q)).
  - destruct (String.leb_total (name p) (name q)) as [-> | ->]; auto.
  - destruct (String.leb_total (parent p) (parent q)) as [-> | ->]; auto.
Qed.

Global Instance Path_le_trans : Transitive Path_le.
Proof.
  intros p q r. unfold Path_le, Path_leb.
  destruct (String.eqb_spec (parent p) (parent q)) as [Epq|Npq],
           (String.eqb_spec (parent q) (parent r)) as [Eqr|Nqr].
  - rewrite Epq, Eqr, String.eqb_refl. apply (transitivity (R := String.le)).
  - rewrite Epq. by destruct (String.eqb_spec (parent q) (parent r)).
  - rewrite <-Eqr. by destruct (String.eqb_spec (parent p) (parent q)).
  - intros Hpq Hqr.
    destruct (String.eqb_spec (parent p) (parent r)) as [Epr|Npr].
    + destruct Npq. rewrite <-Epr in Hqr.
      by apply (anti_symm String.le).
    + by apply (transitivity (R := String.le) (y := parent q)).
Qed.

(** Paths of one directory are ordered by their names. *)
Lemma sorted_names_of_one_directory dir (l : list Path) :
  Forall (fun p => parent p = dir) l ->
  StronglySorted Path_le l -> StronglySorted String.le (name <$> l).
Proof.
  intros Hdir Hs. induction Hs as [|p l Hs IH Hp]; simpl; constructor.
  - apply IH. by inversion Hdir.
  - inversion Hdir as [|?? Hpd Hl]; subst.
    rewrite Forall_fmap. rewrite Forall_forall in Hp, Hl |- *.
    intros q Hq. specialize (Hp q Hq). specialize (Hl q Hq).
    unfold Path_le, Path_leb in Hp. simpl.
    by rewrite Hl, String.eqb_refl in Hp.
Qed.

Lemma find_images_directory fs dir entries :
  fs dir = Directory entries ->
  find_images fs dir
  = (Ok (sorted (mkPath dir <$>
                 flat_map (fun suffix => List.filter (PyStr.endswith suffix) entries)
                   glob_suffixes)),
     []).
Proof.
  intros Hfs. unfold find_images. rewrite Hfs. do 3 f_equal.
  rewrite (flat_map_pairs (glob (Directory entries) dir) PyStr.upper).
  unfold glob. apply (flat_map_fmap (mkPath dir)).
Qed.

(** C2, as the code has it: for a directory, [find_images] returns the
    direct children whose name ends with one of the five extensions
    written all in lower case or all in upper case (each child once for
    each time the directory lists it), sorted by name, and logs
    nothing. *)
Theorem find_images_glob_matches_sorted fs dir entries :
  fs dir = Directory entries ->
  exists image_files,
    find_images fs dir = (Ok image_files, [])
    /\ image_files ≡ₚ mkPath dir <$> List.filter matches_glob entries
    /\ StronglySorted Path_le image_files
    /\ StronglySorted String.le (name <$> image_files).
Proof.
  intros Hfs. eexists. split; [by apply find_images_directory|].
  assert (Hperm : sorted (mkPath dir <$>
                    flat_map (fun suffix => List.filter (PyStr.endswith suffix) entries)
                      glob_suffixes)
                  ≡ₚ mkPath dir <$> List.filter matches_glob entries).
  { unfold sorted.
    rewrite merge_sort_Permutation. apply fmap_Permutation.
    apply flat_map_filter_exclusive.
    - apply (bool_decide_unpack (NoDup glob_suffixes)). by vm_compute.
    - intros p q x. apply glob_suffixes_exclusive. }
  assert (Hsorted : StronglySorted Path_le
            (sorted (mkPath dir <$>
               flat_map (fun suffix => List.filter (PyStr.endswith suffix) entries)
                 glob_suffixes)))
    by apply (StronglySorted_merge_sort Path_le).
  repeat split; [done|done|].
  apply (sorted_names_of_one_directory dir); [|done].
  rewrite Hperm. by apply Forall_fmap, Forall_true.
Qed.

Lemma find_images_glob_matches_sorted_witness :
  exists image_files,
    find_images mixed_case_dir "images" = (Ok image_files, [])
    /\ image_files
       ≡ₚ mkPath "images" <$> List.filter matches_glob ["b.png"; "a.Jpg"; "c.txt"; "d.JPEG"]
    /\ StronglySorted Path_le image_files
    /\ StronglySorted String.le (name <$> image_files).
Proof.
  apply (find_images_glob_matches_sorted mixed_case_dir "images"
           ["b.png"; "a.Jpg"; "c.txt"; "d.JPEG"]).
  reflexivity.
Defined.

(** C2 as stated fails: [a.Jpg] has the extension [.jpg] up to case and
    lies directly in the directory, yet [find_images] does not return it. *)
Lemma find_images_misses_mixed_case :
  has_supported_extension "a.Jpg" = true
  /\ mixed_case_dir "images" = Directory ["b.png"; "a.Jpg"; "c.txt"; "d.JPEG"]
  /\ find_images mixed_case_dir "images"
     = (Ok [mkPath "images" "b.png"; mkPath "images" "d.JPEG"], []).
Proof. by vm_compute. Qed.

(* ================================================================= *)
(** ** Selecting images *)

Section Selection.

Implicit Types (image_files selected : list Path) (indices : list Z).

Lemma in_range_test image_files idx :
  (1 <=? idx) && (idx <=? Z.of_nat (length image_files)) = true
  <-> 1 <= idx <= Z.of_nat (length image_files).
Proof. rewrite andb_true_iff, !Z.leb_le. tauto. Qed.

Lemma select_images_line image_files text rest :
  select_images image_files (Line text :: rest)
  = let selection := PyStr.strip text in
    emit [Prompt select_prompt]
      (if String.eqb selection ""
       then emit [Print "Please enter a selection."]
              (select_images image_files rest)
       else if String.eqb (PyStr.lower selection) "all"
       then mkOutcome (Ok image_files) rest []
       else
         match parse_indices selection with
         | Some indices =>
             match select_by_index image_files indices [] with
             | (Ok (Return selected), evs) => mkOutcome (Ok selected) rest evs
             | (Ok Again, evs) => emit evs (select_images image_files rest)
             | (Raise e, evs) => mkOutcome (Raise e) rest evs
             end
         | None =>
             match name_matches selection image_files with
             | [] =>
                 emit [Print ("Could not find image matching: " +:+ selection)]
                   (select_images image_files rest)
             | matches => mkOutcome (Ok matches) rest []
             end
         end).
Proof. reflexivity. Qed.

(** The loop over the indices stops at the first one out of range, and
    what was selected before it is dropped. *)
Lemma select_by_index_out_of_range image_files indices selected :
  Exists (out_of_range image_files) indices ->
  exists bad,
    In bad indices /\ out_of_range image_files bad /\
    select_by_index image_files indices selected
    = (Ok (Return []), [Print ("Invalid index: " +:+ PyStr.of_int bad)]).
Proof.
  revert selected. induction indices as [|idx indices IH]; intros selected Hex.
  - inversion Hex.
  - cbn [select_by_index].
    destruct ((1 <=? idx) && (idx <=? Z.of_nat (length image_files))) eqn:Hin.
    + apply in_range_test in Hin.
      destruct (lookup_lt_is_Some_2 image_files (Z.to_nat (idx - 1)))
        as [img ->]; [lia|].
      inversion Hex as [?? Hbad|?? Hlater]; subst; [by destruct Hbad|].
      destruct (IH (selected ++ [img]) Hlater) as (bad & ? & ? & ->).
      exists bad. simpl. auto.
    + exists idx. repeat split; [by left|].
      intros Hok. apply in_range_test in Hok. congruence.
Qed.

Lemma parse_indices_all selection :
  PyStr.lower selection = "all" -> parse_indices selection = None.
Proof.
  destruct selection as [|a [|b [|c [|]]]]; try discriminate.
  intros H. injection H as Ha Hb Hc.
  destruct (lower_char_is_a _ Ha), (lower_char_is_l _ Hb),
    (lower_char_is_l _ Hc); subst; reflexivity.
Qed.

(** A selection that reads as a list of integers is neither empty nor
    the token [all]. *)
Lemma parse_indices_Some selection indices :
  parse_indices selection = Some indices ->
  String.eqb selection "" = false
  /\ String.eqb (PyStr.lower selection) "all" = false.
Proof.
  intros Hp. split.
  - destruct (String.eqb_spec selection ""); [subst; discriminate|done].
  - destruct (String.eqb_spec (PyStr.lower selection) "all") as [Hall|]; [|done].
    rewrite (parse_indices_all _ Hall) in Hp. discriminate.
Qed.

(** C3, as the code has it: an answer that [int] reads as a
    comma-separated list of integers, each of at most 4300 digits, with
    at least one index outside of 1..len(catalog) makes [select_images]
    return the empty list, whatever the other indices are. *)
Theorem select_images_out_of_range_returns_empty image_files raw rest indices :
  parse_indices (PyStr.strip raw) = Some indices ->
  Exists (out_of_range image_files) indices ->
  exists bad,
    In bad indices /\ out_of_range image_files bad /\
    select_images image_files (Line raw :: rest)
    = mkOutcome (Ok []) rest
        [Prompt select_prompt; Print ("Invalid index: " +:+ PyStr.of_int bad)].
Proof.
  intros Hparse Hbad.
  destruct (parse_indices_Some _ _ Hparse) as [Hne Hall].
  destruct (select_by_index_out_of_range image_files indices [] Hbad)
    as (bad & Hin & Hout & Hsel).
  exists bad. repeat split; [done..|].
  rewrite select_images_line. cbv zeta.
  by rewrite Hne, Hall, Hparse, Hsel.
Qed.

Lemma select_images_out_of_range_returns_empty_witness :
  exists bad,
    In bad [1; 7; 2] /\ out_of_range [mkPath "images" "a.jpg"; mkPath "images" "b.png"] bad /\
    select_images [mkPath "images" "a.jpg"; mkPath "images" "b.png"]
      (Line " 1, 7,2 " :: [Line "next"])
    = mkOutcome (Ok []) [Line "next"]
        [Prompt select_prompt; Print ("Invalid index: " +:+ PyStr.of_int bad)].
Proof.
  apply (select_images_out_of_range_returns_empty
           [mkPath "images" "a.jpg"; mkPath "images" "b.png"]
           " 1, 7,2 " [Line "next"] [1; 7; 2]).
  - reflexivity.
  - apply Exists_cons_tl, Exists_cons_hd. unfold out_of_range. simpl. lia.
Defined.

(** C3 as stated fails: a numeral of 4301 digits is an integer outside
    of the range, yet [int] does not read it; the answer is then taken
    as a part of a file name, matches none, and [select_images] asks
    again instead of returning the empty list: here it returns what the
    next answer selects. *)
Lemma select_images_index_beyond_int_limit :
  String.length beyond_int_limit = 4301%nat
  /\ parse_indices beyond_int_limit = None
  /\ select_images [mkPath "images" "a.jpg"]
       [Line beyond_int_limit; Line "1"]
     = mkOutcome (Ok [mkPath "images" "a.jpg"]) []
         [Prompt select_prompt;
          Print ("Could not find image matching: " +:+ beyond_int_limit);
          Prompt select_prompt].
Proof. by vm_compute. Qed.

(** The entries [name_matches] keeps: those whose name, in lower case,
    has the selection, in lower case, somewhere inside. *)
Lemma name_matches_spec selection image_files img :
  In img (name_matches selection image_files) <->
  In img image_files /\
  exists before behind,
    PyStr.lower (name img) = before +:+ PyStr.lower selection +:+ behind.
Proof.
  unfold name_matches. by rewrite filter_In, contains_spec.
Qed.

(** C4, as the code has it: for an answer that is not empty, is not
    [all] in any letter case and is no list of integers, [select_images]
    returns the catalog entries whose name contains the answer, case
    ignored, when there is one; when there is none it prints the error
    message and asks again instead of returning. *)
Theorem select_images_by_name image_files raw rest :
  PyStr.strip raw <> "" ->
  PyStr.lower (PyStr.strip raw) <> "all" ->
  parse_indices (PyStr.strip raw) = None ->
  let selection := PyStr.strip raw in
  let matches := name_matches selection image_files in
  (forall img, In img matches <->
     In img image_files /\
     exists before behind,
       PyStr.lower (name img) = before +:+ PyStr.lower selection +:+ behind)
  /\ (matches <> [] ->
      select_images image_files (Line raw :: rest)
      = mkOutcome (Ok matches) rest [Prompt select_prompt])
  /\ (matches = [] ->
      select_images image_files (Line raw :: rest)
      = emit [Prompt select_prompt;
              Print ("Could not find image matching: " +:+ selection)]
          (select_images image_files rest)).
Proof.
  intros Hne Hall Hparse selection matches. subst selection matches.
  split; [intros img; apply name_matches_spec|].
  rewrite select_images_line. cbv zeta.
  destruct (String.eqb_spec (PyStr.strip raw) ""); [done|].
  destruct (String.eqb_spec (PyStr.lower (PyStr.strip raw)) "all"); [done|].
  rewrite Hparse.
  split; intros Hm.
  - destruct (name_matches (PyStr.strip raw) image_files); [done|].
    reflexivity.
  - rewrite Hm. reflexivity.
Qed.

Lemma select_images_by_name_witness :
  let image_files := [mkPath "images" "Cat.JPG"; mkPath "images" "dog.png"] in
  let selection := PyStr.strip " cAt " in
  let matches := name_matches selection image_files in
  (forall img, In img matches <->
     In img image_files /\
     exists before behind,
       PyStr.lower (name img) = before +:+ PyStr.lower selection +:+ behind)
  /\ (matches <> [] ->
      select_images image_files (Line " cAt " :: [Line "q"])
      = mkOutcome (Ok matches) [Line "q"] [Prompt select_prompt])
  /\ (matches = [] ->
      select_images image_files (Line " cAt " :: [Line "q"])
      = emit [Prompt select_prompt;
              Print ("Could not find image matching: " +:+ selection)]
          (select_images image_files [Line "q"])).
Proof.
  apply (select_images_by_name
           [mkPath "images" "Cat.JPG"; mkPath "images" "dog.png"]
           " cAt " [Line "q"]).
  - by vm_compute.
  - by vm_compute.
  - reflexivity.
Defined.

(** C4 as stated fails where no name matches: [zzz] matches nothing,
    and [select_images] does not return an empty selection for it.  It
    asks again: with [dog] as the next answer the call returns
    [dog.png], and with nothing more to read it ends in [EOFError]. *)
Lemma select_images_no_match_asks_again :
  name_matches "zzz" [mkPath "images" "Cat.JPG"; mkPath "images" "dog.png"] = []
  /\ select_images [mkPath "images" "Cat.JPG"; mkPath "images" "dog.png"]
       [Line "zzz"; Line "dog"]
     = mkOutcome (Ok [mkPath "images" "dog.png"]) []
         [Prompt select_prompt;
          Print "Could not find image matching: zzz";
          Prompt select_prompt]
  /\ value (select_images [mkPath "images" "Cat.JPG"; mkPath "images" "dog.png"]
              [Line "zzz"])
     = Raise EOFError.
Proof. by vm_compute. Qed.

End Selection.

(* ================================================================= *)
(** ** The text query *)

Lemma quit_tokens_spec s :
  s ∈ quit_tokens <-> s = "quit" \/ s = "exit" \/ s = "q".
Proof. unfold quit_tokens. rewrite !elem_of_cons, elem_of_nil. tauto. Qed.

Lemma get_text_input_line raw rest :
  get_text_input (Line raw :: rest)
  = mkOutcome
      (Ok (if bool_decide (PyStr.lower (PyStr.strip raw) ∈ quit_tokens)
           then None else Some (PyStr.strip raw)))
      rest
      ([Print (nl +:+ "Enter your question (or 'quit' to exit):"); Prompt "> "]
       ++ (if bool_decide (PyStr.lower (PyStr.strip raw) ∈ quit_tokens)
           then []
           else if String.eqb (PyStr.strip raw) ""
                then [Print "Please enter a question."] else [])).
Proof.
  unfold get_text_input, mbind, IO_bind, io_bind, mret, IO_ret, io_ret, write, input.
  cbn [value remaining output].
  destruct (bool_decide (PyStr.lower (PyStr.strip raw) ∈ quit_tokens)); [done|].
  destruct (String.eqb_spec (PyStr.strip raw) "") as [->|]; reflexivity.
Qed.

(* ================================================================= *)
(** ** Configuration from the environment *)

Section Configuration.

Implicit Types (environ : gmap string string) (m : Model).

(** *** Running code that mutates the model *)

Lemma bind_Ok {A B} (c : Mut A) (k : A -> Mut B) m a m' entries :
  c m = mkMutated (Ok a) m' entries ->
  (c ≫= k) m = prepend entries (k a m').
Proof. intros Hc. unfold mbind, Mut_bind. by rewrite Hc. Qed.

Lemma bind_Raise {A B} (c : Mut A) (k : A -> Mut B) m e m' entries :
  c m = mkMutated (Raise e) m' entries ->
  (c ≫= k) m = mkMutated (Raise e) m' entries.
Proof. intros Hc. unfold mbind, Mut_bind. by rewrite Hc. Qed.

Lemma ints_run xs m :
  ints xs m
  = mkMutated
      (match mapM PyStr.int xs with
       | Some ns => Ok ns
       | None => Raise (InvalidLiteral (first_invalid xs))
       end) m [].
Proof.
  induction xs as [|x xs IH]; [done|].
  cbn [ints first_invalid mapM]. unfold int.
  destruct (PyStr.int x) as [n|]; [|done].
  erewrite bind_Ok by reflexivity.
  destruct (mapM PyStr.int xs) as [ns|].
  - by erewrite bind_Ok by apply IH.
  - by erewrite bind_Raise by apply IH.
Qed.

(** *** The five overrides, one at a time *)

Lemma int_override_run msg set o m :
  int_override msg set o m
  = match o with
    | None => mkMutated (Ok tt) m []
    | Some v =>
        match PyStr.int v with
        | Some n => mkMutated (Ok tt) (set n m) [LogInfo (msg +:+ v)]
        | None => mkMutated (Raise (InvalidLiteral v)) m [LogInfo (msg +:+ v)]
        end
    end.
Proof.
  destruct o as [v|]; [|done]. unfold int_override, if_present.
  erewrite bind_Ok by reflexivity. unfold int.
  destruct (PyStr.int v) as [n|].
  - by erewrite bind_Ok by reflexivity.
  - by erewrite bind_Raise by reflexivity.
Qed.

Lemma scales_override_run o m :
  scales_override o m
  = match o with
    | None => mkMutated (Ok tt) m []
    | Some v =>
        match mapM PyStr.int (PyStr.split "+" v) with
        | Some ns =>
            mkMutated (Ok tt) (set_max_select_num_each_scale ns m)
              [LogInfo ("Select num each scale: " +:+ v)]
        | None =>
            mkMutated (Raise (InvalidLiteral (first_invalid (PyStr.split "+" v))))
              m [LogInfo ("Select num each scale: " +:+ v)]
        end
    end.
Proof.
  destruct o as [v|]; [|done]. unfold scales_override, if_present.
  erewrite bind_Ok by reflexivity.
  pose proof (ints_run (PyStr.split "+" v) m) as Hints.
  destruct (mapM PyStr.int (PyStr.split "+" v)) as [ns|].
  - by erewrite bind_Ok by apply Hints.
  - by erewrite bind_Raise by apply Hints.
Qed.

Lemma mode_override_run o m :
  mode_override o m
  = match o with
    | None => mkMutated (Ok tt) m []
    | Some v =>
        mkMutated (Ok tt) (set_look_close_mode v m)
          [LogInfo ("Look close mode: " +:+ v)]
    end.
Proof. by destruct o. Qed.

Lemma flag_override_run o m :
  flag_override o m
  = match o with
    | None => mkMutated (Ok tt) m []
    | Some v =>
        match flag_of v with
        | Some b =>
            mkMutated (Ok tt) (set_smooth_selection_prob b m)
              [LogInfo ("Smooth selection prob: " +:+ v)]
        | None =>
            mkMutated
              (Raise (ValueError ("Invalid smooth selection prob: " +:+ v)))
              m [LogInfo ("Smooth selection prob: " +:+ v)]
        end
    end.
Proof.
  destruct o as [v|]; [|done]. unfold flag_override, if_present, flag_of.
  erewrite bind_Ok by reflexivity.
  destruct (String.eqb (PyStr.lower v) "true");
    [by erewrite bind_Ok by reflexivity|].
  destruct (String.eqb (PyStr.lower v) "false");
    [by erewrite bind_Ok by reflexivity|].
  by erewrite bind_Raise by reflexivity.
Qed.

Lemma configure_steps environ :
  configure_ps3_and_context_length environ
  = (int_override "Num look close: " set_num_look_close
       (environ !! "NUM_LOOK_CLOSE");;
     int_override "Num token look close: " set_num_token_look_close
       (environ !! "NUM_TOKEN_LOOK_CLOSE");;
     scales_override (environ !! "SELECT_NUM_EACH_SCALE");;
     mode_override (environ !! "LOOK_CLOSE_MODE");;
     flag_override (environ !! "SMOOTH_SELECTION_PROB");;
     adjust_context_length (environ !! "NUM_LOOK_CLOSE")
       (environ !! "NUM_TOKEN_LOOK_CLOSE")).
Proof. reflexivity. Qed.

(** With both integers readable the second half cannot fail. *)
Lemma adjust_context_length_run o1 o2 m :
  (forall v, o1 = Some v -> is_Some (PyStr.int v)) ->
  (forall v, o2 = Some v -> is_Some (PyStr.int v)) ->
  let limit := Tokenizer.model_max_length (tokenizer m) in
  let c1 := match o1 ≫= PyStr.int with
            | Some n => Z.max limit (n * 2560 / 4 + 1024)
            | None => limit
            end in
  let c2 := match o2 ≫= PyStr.int with
            | Some n => Z.max c1 (n / 4 + 1024)
            | None => c1
            end in
  let context_length := Z.max limit c2 in
  adjust_context_length o1 o2 m
  = mkMutated (Ok tt)
      (set_tokenizer (fun _ => Tokenizer.mk context_length)
         (set_llm_config (with_tokenizer_model_max_length context_length)
            (set_llm_config (with_model_max_length context_length)
               (set_config (with_tokenizer_model_max_length context_length)
                  (set_config (with_model_max_length context_length) m)))))
      [].
Proof.
  intros H1 H2. unfold adjust_context_length.
  destruct o1 as [v1|]; [destruct (H1 v1 eq_refl) as [n1 Hn1]|];
    (destruct o2 as [v2|]; [destruct (H2 v2 eq_refl) as [n2 Hn2]|]);
    unfold int; cbn [mbind option_bind]; rewrite ?Hn1, ?Hn2; reflexivity.
Qed.


(** *** A readable environment: the function returns *)

Lemma readable_spec environ :
  readable environ = true <->
  (forall v, environ !! "NUM_LOOK_CLOSE" = Some v -> is_Some (PyStr.int v))
  /\ (forall v, environ !! "NUM_TOKEN_LOOK_CLOSE" = Some v ->
      is_Some (PyStr.int v))
  /\ (forall v, environ !! "SELECT_NUM_EACH_SCALE" = Some v ->
      is_Some (mapM PyStr.int (PyStr.split "+" v)))
  /\ (forall v, environ !! "SMOOTH_SELECTION_PROB" = Some v ->
      is_Some (flag_of v)).
Proof.
  unfold readable. rewrite !andb_true_iff.
  destruct (environ !! "NUM_LOOK_CLOSE"), (environ !! "NUM_TOKEN_LOOK_CLOSE"),
    (environ !! "SELECT_NUM_EACH_SCALE"), (environ !! "SMOOTH_SELECTION_PROB");
    rewrite ?bool_decide_eq_true; intuition (simplify_eq; eauto).
Qed.

Lemma int_override_ok msg set o m :
  (forall v, o = Some v -> is_Some (PyStr.int v)) ->
  exists entries,
    int_override msg set o m
    = mkMutated (Ok tt) (override_with set (o ≫= PyStr.int) m) entries.
Proof.
  intros Ho. rewrite int_override_run. destruct o as [v|]; [|by eexists].
  destruct (Ho v eq_refl) as [n Hn]. cbn [mbind option_bind].
  rewrite Hn. by eexists.
Qed.

Lemma scales_override_ok o m :
  (forall v, o = Some v -> is_Some (mapM PyStr.int (PyStr.split "+" v))) ->
  exists entries,
    scales_override o m
    = mkMutated (Ok tt)
        (override_with set_max_select_num_each_scale
           (o ≫= fun v => mapM PyStr.int (PyStr.split "+" v)) m)
        entries.
Proof.
  intros Ho. rewrite scales_override_run. destruct o as [v|]; [|by eexists].
  destruct (Ho v eq_refl) as [n Hn]. cbn [mbind option_bind].
  rewrite Hn. by eexists.
Qed.

Lemma mode_override_ok o m :
  exists entries,
    mode_override o m
    = mkMutated (Ok tt) (override_with set_look_close_mode o m) entries.
Proof. rewrite mode_override_run. destruct o; by eexists. Qed.

Lemma flag_override_ok o m :
  (forall v, o = Some v -> is_Some (flag_of v)) ->
  exists entries,
    flag_override o m
    = mkMutated (Ok tt)
        (override_with set_smooth_selection_prob (o ≫= flag_of) m) entries.
Proof.
  intros Ho. rewrite flag_override_run. destruct o as [v|]; [|by eexists].
  destruct (Ho v eq_refl) as [n Hn]. cbn [mbind option_bind].
  rewrite Hn. by eexists.
Qed.

(** The overrides followed by the five assignments of the context
    length build the model the specification describes. *)
Lemma overrides_then_context_length (p1 p2 : option Z) (p3 : option (list Z))
  (p4 : option string) (p5 : option bool) m c :
  let m5 :=
    override_with set_smooth_selection_prob p5
      (override_with set_look_close_mode p4
         (override_with set_max_select_num_each_scale p3
            (override_with set_num_token_look_close p2
               (override_with set_num_look_close p1 m)))) in
  Tokenizer.model_max_length (tokenizer m5)
  = Tokenizer.model_max_length (tokenizer m)
  /\ (c = max_with (Tokenizer.model_max_length (tokenizer m)) (bounds_of p1 p2) ->
      set_tokenizer (fun _ => Tokenizer.mk c)
        (set_llm_config (with_tokenizer_model_max_length c)
           (set_llm_config (with_model_max_length c)
              (set_config (with_tokenizer_model_max_length c)
                 (set_config (with_model_max_length c) m5))))
      = configured_from p1 p2 p3 p4 p5 m).
Proof.
  intros m5. subst m5. split; [by destruct p1, p2, p3, p4, p5|].
  intros ->. unfold configured_from. cbv zeta.
  generalize (max_with (Tokenizer.model_max_length (tokenizer m))
                (bounds_of p1 p2)) as c.
  intros c. destruct m. by destruct p1, p2, p3, p4, p5.
Qed.

Lemma adjust_context_length_ok o1 o2 m :
  (forall v, o1 = Some v -> is_Some (PyStr.int v)) ->
  (forall v, o2 = Some v -> is_Some (PyStr.int v)) ->
  exists c,
    c = max_with (Tokenizer.model_max_length (tokenizer m))
          (bounds_of (o1 ≫= PyStr.int) (o2 ≫= PyStr.int))
    /\ adjust_context_length o1 o2 m
       = mkMutated (Ok tt)
           (set_tokenizer (fun _ => Tokenizer.mk c)
              (set_llm_config (with_tokenizer_model_max_length c)
                 (set_llm_config (with_model_max_length c)
                    (set_config (with_tokenizer_model_max_length c)
                       (set_config (with_model_max_length c) m)))))
           [].
Proof.
  intros H1 H2. eexists. split; [|by apply adjust_context_length_run].
  generalize (Tokenizer.model_max_length (tokenizer m)) as limit. intros limit.
  destruct (o1 ≫= PyStr.int), (o2 ≫= PyStr.int);
    unfold max_with, bounds_of; cbn [app fold_right]; lia.
Qed.

(** In a readable environment the function returns, and leaves the
    model the specification describes. *)
Lemma configure_readable environ m :
  readable environ = true ->
  returned (configure_ps3_and_context_length environ m) = Ok tt
  /\ model_after (configure_ps3_and_context_length environ m)
     = configured environ m.
Proof.
  intros (H1 & H2 & H3 & H4)%readable_spec.
  rewrite configure_steps.
  edestruct int_override_ok as [? E1]; [exact H1|].
  erewrite bind_Ok by exact E1. clear E1.
  edestruct int_override_ok as [? E2]; [exact H2|].
  erewrite bind_Ok by exact E2. clear E2.
  edestruct scales_override_ok as [? E3]; [exact H3|].
  erewrite bind_Ok by exact E3. clear E3.
  edestruct mode_override_ok as [? E4].
  erewrite bind_Ok by exact E4. clear E4.
  edestruct flag_override_ok as [? E5]; [exact H4|].
  erewrite bind_Ok by exact E5. clear E5.
  edestruct adjust_context_length_ok as (c & Hc & E6); [exact H1|exact H2|].
  rewrite E6. clear E6. cbn [prepend returned model_after].
  split; [reflexivity|].
  edestruct overrides_then_context_length as [Hlimit Hmodel].
  rewrite Hlimit in Hc. apply Hmodel, Hc.
Qed.

(** *** An unreadable environment: the function raises [ValueError] *)

Lemma raises_first {A B} (c : Mut A) (k : A -> Mut B) m :
  raises_ValueError (c m) -> raises_ValueError ((c ≫= k) m).
Proof.
  intros (e & He & Hv). exists e. split; [|done].
  destruct (c m) as [r m' entries] eqn:Hc. cbn in He. subst r.
  by erewrite bind_Raise by exact Hc.
Qed.

Lemma raises_later {A B} (c : Mut A) (k : A -> Mut B) m :
  only_ValueError c -> (forall a m', raises_ValueError (k a m')) ->
  raises_ValueError ((c ≫= k) m).
Proof.
  intros Hc Hk. destruct (c m) as [[a|e] m' entries] eqn:Hcm.
  - erewrite bind_Ok by exact Hcm. destruct (Hk a m') as (e & He & Hv).
    by exists e.
  - erewrite bind_Raise by exact Hcm. exists e. split; [done|].
    apply (Hc m). by rewrite Hcm.
Qed.

Lemma int_override_only_ValueError msg set o :
  only_ValueError (int_override msg set o).
Proof.
  intros m e. rewrite int_override_run.
  destruct o as [v|]; [destruct (PyStr.int v)|];
    cbn [returned]; intros ?; by simplify_eq.
Qed.

Lemma scales_override_only_ValueError o : only_ValueError (scales_override o).
Proof.
  intros m e. rewrite scales_override_run.
  destruct o as [v|]; [destruct (mapM _ _)|];
    cbn [returned]; intros ?; by simplify_eq.
Qed.

Lemma mode_override_only_ValueError o : only_ValueError (mode_override o).
Proof. intros m e. rewrite mode_override_run. by destruct o. Qed.

Lemma int_override_raises msg set v m :
  PyStr.int v = None -> raises_ValueError (int_override msg set (Some v) m).
Proof. intros Hv. rewrite int_override_run, Hv. by eexists. Qed.

Lemma scales_override_raises v m :
  mapM PyStr.int (PyStr.split "+" v) = None ->
  raises_ValueError (scales_override (Some v) m).
Proof. intros Hv. rewrite scales_override_run, Hv. by eexists. Qed.

Lemma flag_override_raises v m :
  flag_of v = None -> raises_ValueError (flag_override (Some v) m).
Proof. intros Hv. rewrite flag_override_run, Hv. by eexists. Qed.

Lemma unreadable_cases (o : option string) {A} (parse : string -> option A) :
  match o with
  | Some v => bool_decide (is_Some (parse v))
  | None => true
  end = false ->
  exists v, o = Some v /\ parse v = None.
Proof.
  destruct o as [v|]; [|done]. intros Hv%bool_decide_eq_false.
  exists v. split; [done|]. destruct (parse v); [|done]. by destruct Hv.
Qed.

Lemma configure_unreadable environ m :
  readable environ = false ->
  raises_ValueError (configure_ps3_and_context_length environ m).
Proof.
  intros Hr. rewrite configure_steps. unfold readable in Hr.
  apply andb_false_iff in Hr as [Hr|(v & -> & Hv)%unreadable_cases];
    [apply andb_false_iff in Hr as [Hr|(v & -> & Hv)%unreadable_cases];
     [apply andb_false_iff in Hr as
         [(v & -> & Hv)%unreadable_cases|(v & -> & Hv)%unreadable_cases]|]|].
  - by apply raises_first, int_override_raises.
  - apply raises_later; [apply int_override_only_ValueError|intros _ ?].
    by apply raises_first, int_override_raises.
  - apply raises_later; [apply int_override_only_ValueError|intros _ ?].
    apply raises_later; [apply int_override_only_ValueError|intros _ ?].
    by apply raises_first, scales_override_raises.
  - apply raises_later; [apply int_override_only_ValueError|intros _ ?].
    apply raises_later; [apply int_override_only_ValueError|intros _ ?].
    apply raises_later; [apply scales_override_only_ValueError|intros _ ?].
    apply raises_later; [apply mode_override_only_ValueError|intros _ ?].
    by apply raises_first, flag_override_raises.
Qed.

(** The function returns exactly in the readable environments. *)
Lemma configure_returns_iff environ m :
  returned (configure_ps3_and_context_length environ m) = Ok tt
  <-> readable environ = true.
Proof.
  split; [|by intros []%(configure_readable environ m)].
  intros Hok. destruct (readable environ) eqn:Hr; [done|].
  destruct (configure_unreadable environ m Hr) as (e & He & _). congruence.
Qed.

(** *** What the function leaves alone, and what it logs *)

Section Respects.
Context {B : Type} (f : Model -> B) (P : event -> Prop).

Lemma respects_bind {A C} (c : Mut A) (k : A -> Mut C) :
  respects f P c -> (forall a, respects f P (k a)) ->
  respects f P (c ≫= k).
Proof.
  intros Hc Hk m. destruct (Hc m) as [Hf Hl].
  destruct (c m) as [[a|e] m' entries] eqn:Hcm; cbn in Hf, Hl.
  - erewrite bind_Ok by exact Hcm. destruct (Hk a m') as [Hf' Hl'].
    cbn [prepend model_after logged]. split; [congruence|].
    by apply Forall_app.
  - by erewrite bind_Raise by exact Hcm.
Qed.

Lemma respects_ret {A} (a : A) : respects f P (mret a).
Proof. by intros m. Qed.

Lemma respects_raise {A} e : respects f P (raise (A := A) e).
Proof. by intros m. Qed.

Lemma respects_read {A} (g : Model -> A) : respects f P (read g).
Proof. by intros m. Qed.

Lemma respects_log ev : P ev -> respects f P (log ev).
Proof. intros Hev m. split; [done|]. by repeat constructor. Qed.

Lemma respects_assign g :
  (forall m, f (g m) = f m) -> respects f P (assign g).
Proof. intros Hg m. split; [apply Hg|constructor]. Qed.

Lemma respects_int s : respects f P (int s).
Proof. intros m. unfold int. by destruct (PyStr.int s). Qed.

Lemma respects_ints xs : respects f P (ints xs).
Proof. intros m. by rewrite ints_run. Qed.

Lemma respects_if_present {A} (o : option A) body :
  (forall v, o = Some v -> respects f P (body v)) ->
  respects f P (if_present o body).
Proof. destruct o as [v|]; [by intros H; apply H|by intros _ m]. Qed.
End Respects.

Lemma is_LogInfo_LogInfo msg : is_LogInfo (LogInfo msg).
Proof. by exists msg. Qed.

(** A part of the model that the assignments to the context-length
    fields leave alone, and that every override either leaves alone or
    is absent from the environment, is the same after the function as
    before, also when the function raises. *)
Lemma configure_respects {B} (f : Model -> B) environ :
  (environ !! "NUM_LOOK_CLOSE" = None
   \/ forall n m, f (set_num_look_close n m) = f m) ->
  (environ !! "NUM_TOKEN_LOOK_CLOSE" = None
   \/ forall n m, f (set_num_token_look_close n m) = f m) ->
  (environ !! "SELECT_NUM_EACH_SCALE" = None
   \/ forall ns m, f (set_max_select_num_each_scale ns m) = f m) ->
  (environ !! "LOOK_CLOSE_MODE" = None
   \/ forall v m, f (set_look_close_mode v m) = f m) ->
  (environ !! "SMOOTH_SELECTION_PROB" = None
   \/ forall b m, f (set_smooth_selection_prob b m) = f m) ->
  (forall g m, f (set_config g m) = f m) ->
  (forall g m, f (set_llm_config g m) = f m) ->
  (forall g m, f (set_tokenizer g m) = f m) ->
  respects f is_LogInfo (configure_ps3_and_context_length environ).
Proof.
  intros H1 H2 H3 H4 H5 Hc Hl Ht.
  unfold configure_ps3_and_context_length.
  repeat first
    [ apply respects_bind; [|intros ?]
    | apply respects_if_present; intros ? ?
    | apply respects_log, is_LogInfo_LogInfo
    | apply respects_int
    | apply respects_ints
    | apply respects_read
    | apply respects_ret
    | apply respects_raise
    | apply respects_assign; intros ?; solve [auto]
    | match goal with
      | |- respects _ _ (match ?o with _ => _ end) => destruct o
      | |- respects _ _ (if ?b then _ else _) => destruct b
      end ].
  all: apply respects_assign; intros ?;
    match goal with
    | H : _ = None \/ _, E : ?x = Some _ |- _ =>
        destruct H as [H|H]; [congruence|apply H]
    end.
Qed.

Lemma max_with_is_maximum limit bounds :
  limit <= max_with limit bounds
  /\ Forall (fun b => b <= max_with limit bounds) bounds
  /\ In (max_with limit bounds) (limit :: bounds).
Proof.
  induction bounds as [|b bounds (IH1 & IH2 & IH3)]; cbn [max_with fold_right].
  - repeat split; [lia|constructor|by left].
  - fold (max_with limit bounds). repeat split; [lia| |].
    + constructor; [lia|]. eapply Forall_impl; [exact IH2|]. cbn. lia.
    + destruct (Z.max_spec b (max_with limit bounds)) as [[_ ->]|[_ ->]].
      * destruct IH3 as [IH3|IH3]; [by left|by right; right].
      * by right; left.
Qed.

Lemma configured_after environ m :
  returned (configure_ps3_and_context_length environ m) = Ok tt ->
  model_after (configure_ps3_and_context_length environ m)
  = configured environ m.
Proof. intros Hok%configure_returns_iff. by apply configure_readable. Qed.

End Configuration.

(** C1: after a run with [NUM_LOOK_CLOSE] set and the tokenizer's limit
    below the bound derived from it, the effective context length is the
    maximum of the tokenizer's limit and the bounds of the variables
    present, it is the very bound of [NUM_LOOK_CLOSE] when
    [NUM_TOKEN_LOOK_CLOSE] is absent, and the five configuration
    locations hold it. *)
Theorem context_length_is_maximum environ m v n :
  environ !! "NUM_LOOK_CLOSE" = Some v ->
  PyStr.int v = Some n ->
  Tokenizer.model_max_length (tokenizer m) < n * 2560 / 4 + 1024 ->
  returned (configure_ps3_and_context_length environ m) = Ok tt ->
  let m' := model_after (configure_ps3_and_context_length environ m) in
  let limit := Tokenizer.model_max_length (tokenizer m) in
  let c := max_with limit (present_bounds environ) in
  (Config.model_max_length (config m') = Some c
   /\ Config.tokenizer_model_max_length (config m') = Some c
   /\ Config.model_max_length (llm_config m') = Some c
   /\ Config.tokenizer_model_max_length (llm_config m') = Some c
   /\ Tokenizer.model_max_length (tokenizer m') = c)
  /\ (limit <= c /\ Forall (fun b => b <= c) (present_bounds environ)
      /\ In c (limit :: present_bounds environ))
  /\ In (n * 2560 / 4 + 1024) (present_bounds environ)
  /\ (forall k, environ !! "NUM_TOKEN_LOOK_CLOSE" ≫= PyStr.int = Some k ->
      In (k / 4 + 1024) (present_bounds environ))
  /\ (environ !! "NUM_TOKEN_LOOK_CLOSE" = None -> c = n * 2560 / 4 + 1024).
Proof.
  intros Hv Hn Hlt Hok m' limit c. subst m'.
  rewrite (configured_after _ _ Hok). split; [done|].
  split; [apply max_with_is_maximum|].
  subst c. unfold present_bounds, bounds_of. rewrite Hv. cbn [mbind option_bind].
  rewrite Hn. repeat split.
  - by left.
  - intros k ->. by right; left.
  - intros ->. cbn [mbind option_bind max_with fold_right app]. subst limit. lia.
Qed.



Lemma context_length_is_maximum_witness :
  let m' := model_after (configure_ps3_and_context_length look_close_100 loaded_model) in
  let c := max_with 4096 (present_bounds look_close_100) in
  (Config.model_max_length (config m') = Some c
   /\ Config.tokenizer_model_max_length (config m') = Some c
   /\ Config.model_max_length (llm_config m') = Some c
   /\ Config.tokenizer_model_max_length (llm_config m') = Some c
   /\ Tokenizer.model_max_length (tokenizer m') = c)
  /\ (4096 <= c /\ Forall (fun b => b <= c) (present_bounds look_close_100)
      /\ In c (4096 :: present_bounds look_close_100))
  /\ In (100 * 2560 / 4 + 1024) (present_bounds look_close_100)
  /\ (forall k, look_close_100 !! "NUM_TOKEN_LOOK_CLOSE" ≫= PyStr.int = Some k ->
      In (k / 4 + 1024) (present_bounds look_close_100))
  /\ (look_close_100 !! "NUM_TOKEN_LOOK_CLOSE" = None -> c = 100 * 2560 / 4 + 1024).
Proof.
  apply (context_length_is_maximum look_close_100 loaded_model "100" 100).
  - reflexivity.
  - reflexivity.
  - reflexivity.
  - reflexivity.
Defined.

(** What a run that returns has assigned, variable by variable. *)
Lemma configure_assigns environ m :
  returned (configure_ps3_and_context_length environ m) = Ok tt ->
  let m' := model_after (configure_ps3_and_context_length environ m) in
  (forall v, environ !! "NUM_LOOK_CLOSE" = Some v ->
     is_Some (PyStr.int v) /\ num_look_close m' = PyStr.int v)
  /\ (forall v, environ !! "NUM_TOKEN_LOOK_CLOSE" = Some v ->
     is_Some (PyStr.int v) /\ num_token_look_close m' = PyStr.int v)
  /\ (forall v, environ !! "SELECT_NUM_EACH_SCALE" = Some v ->
     is_Some (mapM PyStr.int (PyStr.split "+" v))
     /\ max_select_num_each_scale m' = mapM PyStr.int (PyStr.split "+" v))
  /\ (forall v, environ !! "LOOK_CLOSE_MODE" = Some v ->
     look_close_mode m' = Some v)
  /\ (forall v, environ !! "SMOOTH_SELECTION_PROB" = Some v ->
     is_Some (flag_of v) /\ smooth_selection_prob m' = flag_of v)
  /\ m' = configured environ m.
Proof.
  intros Hok m'. subst m'. rewrite (configured_after _ _ Hok).
  apply configure_returns_iff, readable_spec in Hok as (H1 & H2 & H3 & H4).
  unfold configured, configured_from. cbn [num_look_close num_token_look_close
    max_select_num_each_scale look_close_mode smooth_selection_prob].
  split_and!; [intros v H..|done];
    try match goal with |- _ /\ _ => split; [by eauto|] end;
    rewrite H; cbn [mbind option_bind overridden].
  - by destruct (H1 v H) as [n ->].
  - by destruct (H2 v H) as [n ->].
  - by destruct (H3 v H) as [n ->].
  - done.
  - by destruct (H4 v H) as [n ->].
Qed.

(** C9: each of the five variables, when present, replaces its attribute
    by the value read from it, and when absent leaves the attribute as it
    was; apart from these attributes and the five context-length fields
    the model is not modified. *)
Theorem configure_overrides_only environ m :
  let r := configure_ps3_and_context_length environ m in
  let m' := model_after r in
  checkpoint m' = checkpoint m
  /\ (environ !! "NUM_LOOK_CLOSE" = None -> num_look_close m' = num_look_close m)
  /\ (environ !! "NUM_TOKEN_LOOK_CLOSE" = None ->
      num_token_look_close m' = num_token_look_close m)
  /\ (environ !! "SELECT_NUM_EACH_SCALE" = None ->
      max_select_num_each_scale m' = max_select_num_each_scale m)
  /\ (environ !! "LOOK_CLOSE_MODE" = None -> look_close_mode m' = look_close_mode m)
  /\ (environ !! "SMOOTH_SELECTION_PROB" = None ->
      smooth_selection_prob m' = smooth_selection_prob m)
  /\ (returned r = Ok tt ->
      (forall v, environ !! "NUM_LOOK_CLOSE" = Some v ->
         is_Some (PyStr.int v) /\ num_look_close m' = PyStr.int v)
      /\ (forall v, environ !! "NUM_TOKEN_LOOK_CLOSE" = Some v ->
         is_Some (PyStr.int v) /\ num_token_look_close m' = PyStr.int v)
      /\ (forall v, environ !! "SELECT_NUM_EACH_SCALE" = Some v ->
         is_Some (mapM PyStr.int (PyStr.split "+" v))
         /\ max_select_num_each_scale m' = mapM PyStr.int (PyStr.split "+" v))
      /\ (forall v, environ !! "LOOK_CLOSE_MODE" = Some v ->
         look_close_mode m' = Some v)
      /\ (forall v, environ !! "SMOOTH_SELECTION_PROB" = Some v ->
         is_Some (flag_of v) /\ smooth_selection_prob m' = flag_of v)
      /\ m' = configured environ m).
Proof.
  intros r m'. subst r m'.
  split; [by apply (configure_respects checkpoint); auto|].
  split; [intros H; by apply (configure_respects num_look_close); auto|].
  split; [intros H; by apply (configure_respects num_token_look_close); auto|].
  split; [intros H; by apply (configure_respects max_select_num_each_scale); auto|].
  split; [intros H; by apply (configure_respects look_close_mode); auto|].
  split; [intros H; by apply (configure_respects smooth_selection_prob); auto|].
  apply configure_assigns.
Qed.


Lemma configure_overrides_only_witness :
  model_after (configure_ps3_and_context_length two_overrides loaded_model)
  = mkModel None (Some 2048) None None (Some true)
      (Config.mk (Some 4096) (Some 4096)) (Config.mk (Some 4096) (Some 4096))
      (Tokenizer.mk 4096) "NVILA-Lite-8B".
Proof.
  destruct (configure_overrides_only two_overrides loaded_model)
    as (_ & _ & _ & _ & _ & _ & H).
  destruct (H eq_refl) as (_ & _ & _ & _ & _ & ->). reflexivity.
Defined.

(* ================================================================= *)
(** ** The session loop *)

Section Session.

Context (w : World) (model : Model) (image_files : list Path).

(** *** Reading the terminal *)

Lemma io_bind_run {A B} (m : IO A) (k : A -> IO B) pending :
  (m ≫= k) pending
  = match value (m pending) with
    | Ok a => emit (output (m pending)) (k a (remaining (m pending)))
    | Raise e =>
        mkOutcome (Raise e) (remaining (m pending)) (output (m pending))
    end.
Proof. reflexivity. Qed.

Lemma display_images_remaining st pending :
  remaining (display_images st image_files pending) = pending.
Proof.
  unfold display_images.
  by destruct (display_lines st 1 image_files) as [[[]|e] evs].
Qed.

Lemma display_images_not_interrupted st pending :
  value (display_images st image_files pending) <> Raise KeyboardInterrupt.
Proof.
  unfold display_images. generalize 1. intros idx.
  assert (H : forall e, (display_lines st idx image_files).1 = Raise e ->
                        e <> KeyboardInterrupt).
  { revert idx. induction image_files as [|p l IH]; intros idx e; [done|].
    cbn [display_lines]. destruct (st p); [|by intros [= <-]].
    specialize (IH (idx + 1) e).
    by destruct (display_lines st (idx + 1) l). }
  destruct (display_lines st idx image_files) as [[[]|e] evs]; [done|].
  cbn. intros [= ->]. by apply (H KeyboardInterrupt).
Qed.

(** What [select_images] leaves on the terminal is an end piece of what
    it found there, and it is interrupted by the interrupt key only. *)
Lemma select_images_remaining pending :
  remaining (select_images image_files pending) `suffix_of` pending.
Proof.
  induction pending as [|[text|] rest IH]; [done| |by apply suffix_cons_r].
  rewrite select_images_line. cbv zeta.
  assert (Hrest : rest `suffix_of` Line text :: rest) by by apply suffix_cons_r.
  assert (Hrec : remaining (select_images image_files rest)
                   `suffix_of` Line text :: rest) by by apply suffix_cons_r.
  destruct (String.eqb _ ""); [done|].
  destruct (String.eqb _ "all"); [done|].
  destruct (parse_indices _).
  - by destruct (select_by_index _ _ _) as [[[?|]|?] ?].
  - by destruct (name_matches _ _).
Qed.

Lemma select_by_index_not_interrupted indices selected :
  (select_by_index image_files indices selected).1 <> Raise KeyboardInterrupt.
Proof.
  revert selected. induction indices as [|idx indices IH]; intros selected;
    cbn [select_by_index]; [done|].
  destruct (_ && _); [|done]. by destruct (_ !! _).
Qed.

Lemma select_images_interrupted pending :
  value (select_images image_files pending) = Raise KeyboardInterrupt ->
  In CtrlC pending.
Proof.
  induction pending as [|[text|] rest IH]; [done| |by left].
  rewrite select_images_line. cbv zeta. intros H. right. revert H.
  destruct (String.eqb _ ""); [done|].
  destruct (String.eqb _ "all"); [done|].
  destruct (parse_indices _) as [indices|].
  - pose proof (select_by_index_not_interrupted indices []) as Hno.
    by destruct (select_by_index _ _ _) as [[[?|]|?] ?]; [| |intros [= ->]].
  - by destruct (name_matches _ _).
Qed.


Lemma get_text_input_eof :
  get_text_input []
  = mkOutcome (Raise EOFError) []
      [Print (nl +:+ "Enter your question (or 'quit' to exit):"); Prompt "> "].
Proof. reflexivity. Qed.

Lemma get_text_input_interrupted rest :
  get_text_input (CtrlC :: rest)
  = mkOutcome (Raise KeyboardInterrupt) rest
      [Print (nl +:+ "Enter your question (or 'quit' to exit):"); Prompt "> "].
Proof. reflexivity. Qed.

(** *** One pass through the loop *)

(** The case analysis of one pass: how the listing, the selection, the
    question and the generation went. *)
Ltac turn_cases pending :=
  unfold turn; rewrite io_bind_run;
  pose proof (display_images_remaining (st_size w) pending) as Hshown;
  pose proof (display_images_not_interrupted (st_size w) pending) as Hlisted;
  destruct (display_images (st_size w) image_files pending)
    as [[[]|e0] rem0 shown];
  cbn [value remaining output] in Hshown, Hlisted |- *; subst rem0;
  [rewrite io_bind_run;
   pose proof (select_images_remaining pending) as Hleft;
   pose proof (select_images_interrupted pending) as Hint;
   destruct (select_images image_files pending)
     as [[[|img selected]|e1] rem1 chosen];
   cbn [value remaining output] in Hleft, Hint |- *;
   [|rewrite io_bind_run; cbn [write value remaining output];
     rewrite io_bind_run;
     destruct rem1 as [|[raw|] rest];
     [rewrite get_text_input_eof
     |rewrite get_text_input_line;
      destruct (bool_decide (PyStr.lower (PyStr.strip raw) ∈ quit_tokens))
        eqn:Hquit;
      cbn [value remaining output];
      [rewrite io_bind_run
      |destruct (PyStr.strip raw) as [|c text] eqn:Htext;
        [|rewrite io_bind_run; cbn [write value remaining output];
          rewrite io_bind_run; cbn [generate value remaining output];
          match goal with
          | |- context [generate_content w model ?p] =>
              destruct (generate_content w model p) as [response|e2] eqn:Hgen
          end;
          [rewrite io_bind_run|]]]
     |rewrite get_text_input_interrupted]
   |]
  |];
  cbn [emit value remaining output mret IO_ret io_ret write].

Lemma turn_remaining pending :
  remaining (turn w model image_files pending) `suffix_of` pending.
Proof.
  turn_cases pending; try done;
    (etrans; [|exact Hleft]); try done; by apply suffix_cons_r.
Qed.

(** A pass that read nothing leaves the terminal as it found it. *)
Lemma turn_no_progress pending :
  ~ (length (remaining (turn w model image_files pending)) < length pending)%nat ->
  remaining (turn w model image_files pending) = pending.
Proof.
  intros Hlen. destruct (turn_remaining pending) as [k Hk].
  rewrite Hk in Hlen at 2. rewrite length_app in Hlen.
  destruct k; [done|]. cbn in Hlen. lia.
Qed.

(** A pass ends the session by [Break] only for a quit token typed as
    the answer to the question, and then the farewell is the last thing
    it writes. *)
Lemma turn_Break pending :
  value (turn w model image_files pending) = Ok Break ->
  exists selected raw rest,
    value (select_images image_files pending) = Ok selected
    /\ selected <> []
    /\ remaining (select_images image_files pending) = Line raw :: rest
    /\ PyStr.lower (PyStr.strip raw) ∈ quit_tokens
    /\ remaining (turn w model image_files pending) = rest
    /\ last (output (turn w model image_files pending)) = Some farewell_quit.
Proof.
  turn_cases pending; try discriminate. intros _.
  exists (img :: selected), raw, rest. split_and!; try done.
  - by apply bool_decide_eq_true in Hquit.
  - rewrite !app_nil_r, !app_assoc. apply last_snoc.
Qed.

(** A pass is interrupted only by the interrupt key or from inside the
    generation. *)
Lemma turn_interrupted pending :
  value (turn w model image_files pending) = Raise KeyboardInterrupt ->
  In CtrlC pending
  \/ exists prompt, generate_content w model prompt = Raise KeyboardInterrupt.
Proof.
  turn_cases pending; try discriminate; intros Hv.
  - right. injection Hv as ->. eauto.
  - left. destruct Hleft as [k ->]. apply in_app_iff. right. by left.
  - left. injection Hv as ->. by apply Hint.
  - injection Hv as ->. done.
Qed.

(** *** What the handlers do not catch *)

Lemma display_images_raises st pending e :
  value (display_images st image_files pending) = Raise e ->
  is_Exception e = true.
Proof.
  unfold display_images. generalize 1. intros idx.
  assert (H : forall e, (display_lines st idx image_files).1 = Raise e ->
                        is_Exception e = true).
  { revert idx. induction image_files as [|p l IH]; intros idx e'; [done|].
    cbn [display_lines]. destruct (st p); [|by intros [= <-]].
    specialize (IH (idx + 1) e').
    by destruct (display_lines st (idx + 1) l). }
  destruct (display_lines st idx image_files) as [[[]|e'] evs]; [done|].
  cbn. intros [= ->]. by apply H.
Qed.

Lemma select_by_index_raises indices selected e :
  (select_by_index image_files indices selected).1 = Raise e ->
  is_Exception e = true.
Proof.
  revert selected. induction indices as [|idx indices IH]; intros selected;
    cbn [select_by_index]; [done|].
  destruct (_ && _); [|done].
  destruct (_ !! _); [apply IH|by intros [= <-]].
Qed.

Lemma select_images_raises pending e :
  value (select_images image_files pending) = Raise e ->
  e = KeyboardInterrupt \/ is_Exception e = true.
Proof.
  induction pending as [|[text|] rest IH];
    [by intros [= <-]; right| |by intros [= <-]; left].
  rewrite select_images_line. cbv zeta. cbn [emit value].
  destruct (String.eqb _ ""); [exact IH|].
  destruct (String.eqb _ "all"); [done|].
  destruct (parse_indices _) as [indices|].
  - pose proof (select_by_index_raises indices [] e) as Hidx.
    destruct (select_by_index _ _ _) as [[[?|]|?] ?];
      [done|exact IH|intros [= ->]; right; by apply Hidx].
  - by destruct (name_matches _ _).
Qed.

(** An exception of a pass that neither handler catches was raised by
    the generation. *)
Lemma turn_escapes pending e :
  value (turn w model image_files pending) = Raise e ->
  is_Exception e = false -> e <> KeyboardInterrupt ->
  exists prompt, generate_content w model prompt = Raise e.
Proof.
  pose proof (display_images_raises (st_size w) pending) as Hd.
  pose proof (select_images_raises pending) as Hs.
  revert Hd Hs.
  turn_cases pending; intros Hd Hs Hv Hexc Hne; try discriminate;
    injection Hv as Hv; subst;
    first [ by cbn in Hexc
          | by eauto
          | by rewrite (Hd _ eq_refl) in Hexc
          | by destruct (Hs _ eq_refl) as [?|He]; [|rewrite He in Hexc] ].
Qed.


(** *** Calls of the model *)

Lemma calls_app evs later : calls (evs ++ later) = calls evs ++ calls later.
Proof. apply omap_app. Qed.

Lemma calls_Print text evs : calls (Print text :: evs) = calls evs.
Proof. reflexivity. Qed.

Lemma calls_fmap_Print {A} (line : A -> string) (l : list A) :
  calls ((fun a => Print (line a)) <$> l) = [].
Proof. by induction l. Qed.

Lemma display_lines_calls st idx files :
  calls (display_lines st idx files).2 = [].
Proof.
  revert idx. induction files as [|p files IH]; intros idx; [done|].
  cbn [display_lines]. destruct (st p); [|done].
  specialize (IH (idx + 1)). by destruct (display_lines st (idx + 1) files).
Qed.

Lemma display_images_calls st pending :
  calls (output (display_images st image_files pending)) = [].
Proof.
  unfold display_images. pose proof (display_lines_calls st 1 image_files) as H.
  destruct (display_lines st 1 image_files) as [[[]|e] evs];
    cbn [output snd] in *; [|done].
  change (calls (evs ++ [Print ""]) = []). by rewrite calls_app, H.
Qed.

Lemma select_by_index_calls indices selected :
  calls (select_by_index image_files indices selected).2 = [].
Proof.
  revert selected. induction indices as [|idx indices IH]; intros selected;
    cbn [select_by_index]; [done|].
  destruct (_ && _); [|done]. by destruct (_ !! _).
Qed.

Lemma select_images_calls pending :
  calls (output (select_images image_files pending)) = [].
Proof.
  induction pending as [|[text|] rest IH]; [done| |done].
  rewrite select_images_line. cbv zeta. unfold emit at 1. cbn [output].
  rewrite calls_app. cbn [calls omap app].
  destruct (String.eqb _ "");
    [unfold emit; cbn [output]; by rewrite calls_app|].
  destruct (String.eqb _ "all"); [done|].
  destruct (parse_indices _) as [indices|].
  - pose proof (select_by_index_calls indices []) as H.
    destruct (select_by_index _ _ _) as [[[?|]|?] evs]; cbn [snd] in H;
      unfold emit; cbn [output]; by rewrite ?calls_app, ?H.
  - destruct (name_matches _ _); [|done].
    unfold emit; cbn [output]; by rewrite calls_app.
Qed.

(** A pass calls the model at most once, and only after a selection
    that is not empty and a question that is neither empty nor a quit
    token; the prompt is made of the selection and the question. *)
Lemma turn_calls pending :
  calls (output (turn w model image_files pending)) = []
  \/ exists selected raw rest,
       value (select_images image_files pending) = Ok selected
       /\ selected <> []
       /\ remaining (select_images image_files pending) = Line raw :: rest
       /\ PyStr.strip raw <> ""
       /\ (PyStr.lower (PyStr.strip raw) ∉ quit_tokens)
       /\ calls (output (turn w model image_files pending))
          = [prompt_of selected (PyStr.strip raw)]
       /\ remaining (turn w model image_files pending) = rest.
Proof.
  pose proof (display_images_calls (st_size w) pending) as Hd.
  pose proof (select_images_calls pending) as Hs.
  turn_cases pending; cbn [output] in Hd, Hs;
    rewrite ?calls_app, ?Hd, ?Hs, ?calls_Print, ?calls_fmap_Print;
    try (by left).
  all: right; exists (img :: selected), raw, rest;
    apply bool_decide_eq_false in Hquit; try rewrite Htext in Hquit;
    rewrite Htext; by split_and!.
Qed.


(** *** The interrupt key *)

(** With the interrupt key among what is on the terminal,
    [select_images] is either interrupted or has read at least one line
    and left the key where it was. *)
Lemma select_images_keeps_interrupt pending :
  In CtrlC pending ->
  value (select_images image_files pending) = Raise KeyboardInterrupt
  \/ In CtrlC (remaining (select_images image_files pending))
     /\ (length (remaining (select_images image_files pending))
         < length pending)%nat.
Proof.
  induction pending as [|[text|] rest IH]; [done| |by left].
  intros [|Hin]; [done|]. rewrite select_images_line. cbv zeta.
  cbn [emit value remaining length].
  assert (Hrec : value (select_images image_files rest) = Raise KeyboardInterrupt
                 \/ In CtrlC (remaining (select_images image_files rest))
                    /\ (length (remaining (select_images image_files rest))
                        < S (length rest))%nat).
  { destruct (IH Hin) as [?|[? ?]]; [by left|right]. split; [done|lia]. }
  assert (Hrest : In CtrlC rest /\ (length rest < S (length rest))%nat)
    by (split; [done|lia]).
  destruct (String.eqb _ ""); [exact Hrec|].
  destruct (String.eqb _ "all"); [by right|].
  destruct (parse_indices _).
  - destruct (select_by_index _ _ _) as [[[?|]|?] ?];
      [by right|exact Hrec|by right].
  - destruct (name_matches _ _); [exact Hrec|by right].
Qed.

(** With the listing printed and the interrupt key on the terminal, a
    pass ends the session or goes on with less on the terminal, the key
    still there. *)
Lemma turn_keeps_interrupt pending :
  value (display_images (st_size w) image_files pending) = Ok tt ->
  In CtrlC pending ->
  value (turn w model image_files pending) = Ok Break
  \/ value (turn w model image_files pending) = Raise KeyboardInterrupt
  \/ In CtrlC (remaining (turn w model image_files pending))
     /\ (length (remaining (turn w model image_files pending))
         < length pending)%nat.
Proof.
  intros Hlisting Hkey.
  pose proof (select_images_keeps_interrupt pending Hkey) as Hsel.
  revert Hlisting Hsel.
  turn_cases pending; intros Hlisting Hsel; try done;
    destruct Hsel as [Hsel|[Hin Hlen]]; try done; try (by left);
    try (right; left; congruence).
  all: right; right; cbn [length] in Hlen;
    (split; [first [exact Hin|by destruct Hin]|lia]).
Qed.

(** *** The loop *)

Lemma session_loop_step pending :
  session_loop w model image_files pending
  = let o := turn w model image_files pending in
    let next :=
      if decide (length (remaining o) < length pending)%nat
      then after (output o ++ handled (value o))
             (session_loop w model image_files (remaining o))
      else (Forever, output o ++ handled (value o)) in
    match value o with
    | Ok Break => (Exit 0, output o)
    | Ok Continue => next
    | Raise KeyboardInterrupt => (Exit 0, output o ++ [farewell_interrupt])
    | Raise e => if is_Exception e then next else (uncaught e, output o)
    end.
Proof.
  rewrite session_loop_equation_1. cbv zeta.
  destruct (value (turn w model image_files pending)) as [[]|[]];
    try reflexivity; by destruct (decide _).
Qed.

(** The loop after a pass that neither ended the session nor let an
    exception through. *)
Lemma session_loop_goes_on pending :
  goes_on (value (turn w model image_files pending)) = true ->
  session_loop w model image_files pending
  = let o := turn w model image_files pending in
    if decide (length (remaining o) < length pending)%nat
    then after (output o ++ handled (value o))
           (session_loop w model image_files (remaining o))
    else (Forever, output o ++ handled (value o)).
Proof.
  intros Hgo. rewrite session_loop_step. cbv zeta.
  by destruct (value (turn w model image_files pending)) as [[]|[]].
Qed.

(** The loop after a pass that raised what neither handler catches. *)
Lemma session_loop_escapes pending e :
  value (turn w model image_files pending) = Raise e ->
  is_Exception e = false -> e <> KeyboardInterrupt ->
  session_loop w model image_files pending
  = (uncaught e, output (turn w model image_files pending)).
Proof.
  intros Hv Hexc Hne. rewrite session_loop_step. cbv zeta. rewrite Hv.
  by destruct e.
Qed.

(** The four ways a pass can end. *)
Lemma turn_fate (v : result turn_end) :
  v = Ok Break \/ v = Raise KeyboardInterrupt \/ goes_on v = true
  \/ exists e, v = Raise e /\ is_Exception e = false /\ e <> KeyboardInterrupt.
Proof.
  destruct v as [[]|e]; [by right; right; left|by left|].
  destruct e; try (by right; right; left); [by right; left|..];
    right; right; right; eexists; by split_and!.
Qed.

Lemma session_loop_induction (P : list stdin_event -> Prop) :
  (forall pending,
      (forall shorter, (length shorter < length pending)%nat -> P shorter) ->
      P pending) ->
  forall pending, P pending.
Proof.
  intros Hstep pending. remember (length pending) as n eqn:Hn.
  revert pending Hn. induction (lt_wf n) as [n _ IH]. intros pending ->.
  apply Hstep. intros shorter Hlt. by apply (IH (length shorter)).
Qed.

(** The loop is left with status 0, or never, or by an exception of the
    generation that neither handler catches. *)
Lemma session_loop_end pending :
  (session_loop w model image_files pending).1 = Exit 0
  \/ (session_loop w model image_files pending).1 = Forever
  \/ exists e prompt,
       generate_content w model prompt = Raise e
       /\ is_Exception e = false /\ e <> KeyboardInterrupt
       /\ (session_loop w model image_files pending).1 = uncaught e.
Proof.
  induction pending as [pending IH] using session_loop_induction.
  destruct (turn_fate (value (turn w model image_files pending)))
    as [Hv|[Hv|[Hv|(e & Hv & Hexc & Hne)]]].
  - left. rewrite session_loop_step. cbv zeta. by rewrite Hv.
  - left. rewrite session_loop_step. cbv zeta. by rewrite Hv.
  - rewrite (session_loop_goes_on _ Hv). cbv zeta.
    destruct (decide _) as [Hlt|]; [|by right; left]. cbn [after fst].
    apply (IH _ Hlt).
  - right; right. destruct (turn_escapes _ _ Hv Hexc Hne) as [prompt Hgen].
    exists e, prompt. split_and!; [done..|].
    by rewrite (session_loop_escapes _ _ Hv Hexc Hne).
Qed.

Lemma last_after_app (evs later : list event) :
  later <> [] -> last (evs ++ later) = last later.
Proof.
  intros Hne. destruct later as [|ev later _] using rev_ind; [done|].
  by rewrite app_assoc, !last_snoc.
Qed.

(** A session that comes to its end leaves the loop with status 0, the
    farewell being the last thing written. *)
Lemma session_ends_exit pending how :
  session_ends w model image_files pending how ->
  (session_loop w model image_files pending).1 = Exit 0
  /\ last (session_loop w model image_files pending).2
     = Some match how with
            | ByQuit => farewell_quit
            | ByInterrupt => farewell_interrupt
            end.
Proof.
  induction 1 as [pending Hv|pending Hv|pending how Hgo _ [IHexit IHlast]].
  - rewrite session_loop_step. cbv zeta. rewrite Hv. split; [done|].
    cbn [snd]. by destruct (turn_Break pending Hv) as (?&?&?&?&?&?&?&?&?).
  - rewrite session_loop_step. cbv zeta. rewrite Hv. split; [done|].
    cbn [snd]. apply last_snoc.
  - destruct (decide (length (remaining (turn w model image_files pending))
                      < length pending)%nat) as [Hlt|Hno].
    + rewrite (session_loop_goes_on _ Hgo). cbv zeta.
      destruct (decide _); [|done]. cbn [after fst snd]. split; [done|].
      rewrite last_after_app; [done|]. intros Hnil. by rewrite Hnil in IHlast.
    + by rewrite (turn_no_progress _ Hno) in IHexit, IHlast.
Qed.

(** When the loop is left with a status, it is with 0 by a pass that
    returned [Break] or one that raised [KeyboardInterrupt], or with the
    status of a [SystemExit] that the generation raised. *)
Lemma session_loop_exit pending status :
  (session_loop w model image_files pending).1 = Exit status ->
  (status = 0 /\ exists how, session_ends w model image_files pending how)
  \/ exists prompt, generate_content w model prompt = Raise (SystemExit status).
Proof.
  induction pending as [pending IH] using session_loop_induction.
  destruct (turn_fate (value (turn w model image_files pending)))
    as [Hv|[Hv|[Hv|(e & Hv & Hexc & Hne)]]].
  - rewrite session_loop_step. cbv zeta. rewrite Hv. intros [= <-].
    left. split; [done|]. exists ByQuit. by apply ends_by_quit.
  - rewrite session_loop_step. cbv zeta. rewrite Hv. intros [= <-].
    left. split; [done|]. exists ByInterrupt. by apply ends_by_interrupt.
  - rewrite (session_loop_goes_on _ Hv). cbv zeta.
    destruct (decide _) as [Hlt|]; [|done]. cbn [after fst]. intros Hexit.
    destruct (IH _ Hlt Hexit) as [[-> [how Hends]]|Hgen]; [left|by right].
    split; [done|]. exists how. by apply ends_later.
  - rewrite (session_loop_escapes _ _ Hv Hexc Hne). cbn [fst].
    destruct (turn_escapes _ _ Hv Hexc Hne) as [prompt Hgen].
    destruct e; try done. intros [= ->]. right. by exists prompt.
Qed.

(** A session that ends by [Break] saw a quit token on the terminal;
    one that ends by an interrupt saw the interrupt key, or the
    generation raised the interrupt. *)
Lemma session_ends_cause pending how :
  session_ends w model image_files pending how ->
  match how with
  | ByQuit =>
      exists raw, In (Line raw) pending
                  /\ PyStr.lower (PyStr.strip raw) ∈ quit_tokens
  | ByInterrupt =>
      In CtrlC pending
      \/ exists prompt, generate_content w model prompt = Raise KeyboardInterrupt
  end.
Proof.
  induction 1 as [pending Hv|pending Hv|pending how _ _ IH].
  - destruct (turn_Break pending Hv) as (sel & raw & rest & _ & _ & Hrem & Hq & _).
    exists raw. split; [|done].
    destruct (select_images_remaining pending) as [k Hk].
    rewrite Hk, Hrem. apply in_app_iff. right. by left.
  - by apply turn_interrupted.
  - destruct (turn_remaining pending) as [k Hk].
    destruct how.
    + destruct IH as (raw & Hin & Hq). exists raw. split; [|done].
      rewrite Hk. apply in_app_iff. by right.
    + destruct IH as [Hin|Hgen]; [left|by right].
      rewrite Hk. apply in_app_iff. by right.
Qed.

End Session.

(* ================================================================= *)
(** ** Start-up *)

Lemma configure_logs_info environ m :
  Forall is_LogInfo (logged (configure_ps3_and_context_length environ m)).
Proof. by apply (configure_respects (fun _ => tt) environ); auto. Qed.

Lemma main_not_loaded args w e :
  loaded args w = Raise e ->
  main args w
  = (uncaught e,
     banner ++ [LogInfo ("Loading model from: " +:+ model_path args)]).
Proof.
  intros Hload. unfold main. fold (loaded args w). rewrite Hload.
  unfold after. cbn [fst snd]. by rewrite app_nil_r.
Qed.

Lemma main_not_configured args w model0 e :
  loaded args w = Ok model0 ->
  returned (configure_ps3_and_context_length (environ w) model0) = Raise e ->
  main args w
  = (uncaught e,
     (banner ++ [LogInfo ("Loading model from: " +:+ model_path args)])
     ++ LogInfo "Model loaded successfully"
        :: logged (configure_ps3_and_context_length (environ w) model0)).
Proof.
  intros Hload Hraise. unfold main. fold (loaded args w). rewrite Hload.
  cbv zeta. rewrite Hraise. unfold after. cbn [fst snd].
  by rewrite app_nil_r.
Qed.

(** After a start-up that went through, [main] looks for the images, and
    ends with the exception of [find_images], or leaves with status 1,
    or enters the session loop. *)
Lemma main_started args w model :
  started args w model ->
  exists startup,
    Forall is_report startup
    /\ main args w
    = after startup
        match (find_images (fs w) (images_dir args)).1 with
        | Raise e => (uncaught e, [])
        | Ok [] =>
            (Exit 1,
             [LogError ("No images found in " +:+ images_dir args);
              LogInfo "Please add some images (.jpg, .jpeg, .png) to the images/ folder"])
        | Ok image_files =>
            after
              [LogInfo ("Found "
                        +:+ PyStr.of_int (Z.of_nat (length image_files))
                        +:+ " image(s) in " +:+ images_dir args);
               Print (nl +:+ "Interactive mode started. Type 'quit' to exit."
                      +:+ nl)]
              (session_loop w model image_files (keyboard w))
        end.
Proof.
  intros (model0 & Hload & Hok & <- & [template Hconv]).
  unfold main. fold (loaded args w). rewrite Hload. cbv zeta.
  rewrite Hok, Hconv.
  pose proof (configure_logs_info (environ w) model0) as Hlogged.
  assert (Hlooked : Forall is_report (find_images (fs w) (images_dir args)).2).
  { unfold find_images. destruct (fs w (images_dir args)); cbn [snd];
      repeat constructor. eexists. right. by right. }
  destruct (find_images (fs w) (images_dir args)) as [found looked].
  cbn [fst snd] in *. eexists. split; [|unfold after at 1 2 3; cbn [fst snd];
    rewrite !app_assoc; reflexivity].
  rewrite !Forall_app. split_and!.
  - unfold banner.
    repeat (constructor; [eexists; first [by left|by (right; left)]|]).
    constructor.
  - repeat constructor. eexists. right. by left.
  - constructor; [eexists; right; by left|].
    eapply Forall_impl; [exact Hlogged|]. intros ev [msg ->].
    eexists. right. by left.
  - constructor; [eexists; right; by left|done].
Qed.

(** With images found, [main] ends as the session loop does. *)
Lemma main_entered args w model image_files :
  started args w model ->
  (find_images (fs w) (images_dir args)).1 = Ok image_files ->
  image_files <> [] ->
  exists startup,
    main args w
    = after startup (session_loop w model image_files (keyboard w)).
Proof.
  intros (startup & _ & ->)%main_started -> Hsome.
  destruct image_files as [|img image_files]; [done|].
  eexists. unfold after. cbn [fst snd]. rewrite app_assoc. reflexivity.
Qed.

(* ================================================================= *)
(** ** The claims about the session *)

(** C5: [get_text_input] returns [None] exactly for the three quit
    tokens in any letter case, the empty string for an answer of white
    space only, and the stripped answer otherwise; a pass through the
    session loop returns [Break] only when a quit token was typed. *)
Theorem get_text_input_result raw rest :
  let text := PyStr.strip raw in
  let o := get_text_input (Line raw :: rest) in
  value o = Ok (if bool_decide (PyStr.lower text ∈ quit_tokens)
                then None else Some text)
  /\ (value o = Ok None <->
      PyStr.lower text = "quit" \/ PyStr.lower text = "exit"
      \/ PyStr.lower text = "q")
  /\ (Forall (fun c => PyStr.isspace c = true) (list_ascii_of_string raw) <->
      value o = Ok (Some ""))
  /\ remaining o = rest
  /\ (forall w model image_files pending,
        value (turn w model image_files pending) = Ok Break ->
        exists answer,
          In (Line answer) pending
          /\ PyStr.lower (PyStr.strip answer) ∈ quit_tokens).
Proof.
  intros text o. subst text o. rewrite get_text_input_line.
  cbn [value remaining].
  rewrite <-quit_tokens_spec, <-strip_empty_iff.
  split_and!; [done| split | split |done|].
  - case_bool_decide; [done|by intros [=]].
  - intros Hq. by rewrite bool_decide_eq_true_2.
  - intros Hempty. rewrite Hempty.
    rewrite bool_decide_eq_false_2; [done|].
    rewrite quit_tokens_spec. simpl. intuition discriminate.
  - case_bool_decide as Hq; [by intros [=]|]. by intros [= ->].
  - intros w model image_files pending Hbreak.
    apply (session_ends_cause w model image_files pending ByQuit).
    by apply ends_by_quit.
Qed.

(** C7, as the code has it: the session loop is left with status 0 by
    a pass that returned [Break], which takes a quit token, or by one
    that raised [KeyboardInterrupt]; an exception of a pass that derives
    from [Exception] is logged and shown, and the loop goes on with what
    is left on the terminal; any other exception, which only the
    generation can raise, leaves the loop uncaught. *)
Theorem session_loop_left_by_quit_or_interrupt w model image_files pending :
  let r := session_loop w model image_files pending in
  let o := turn w model image_files pending in
  let progress := (length (remaining o) < length pending)%nat in
  (r.1 = Exit 0 \/ r.1 = Forever
   \/ exists e prompt,
        generate_content w model prompt = Raise e
        /\ is_Exception e = false /\ e <> KeyboardInterrupt
        /\ r.1 = uncaught e)
  /\ (forall how, session_ends w model image_files pending how ->
      r.1 = Exit 0
      /\ last r.2 = Some match how with
                         | ByQuit => farewell_quit
                         | ByInterrupt => farewell_interrupt
                         end
      /\ match how with
         | ByQuit =>
             exists raw, In (Line raw) pending
                         /\ PyStr.lower (PyStr.strip raw) ∈ quit_tokens
         | ByInterrupt =>
             In CtrlC pending
             \/ exists prompt,
                  generate_content w model prompt = Raise KeyboardInterrupt
         end)
  /\ (forall status, r.1 = Exit status ->
      (status = 0 /\ exists how, session_ends w model image_files pending how)
      \/ exists prompt,
           generate_content w model prompt = Raise (SystemExit status))
  /\ (value o = Ok Break -> r = (Exit 0, output o))
  /\ (value o = Raise KeyboardInterrupt ->
      r = (Exit 0, output o ++ [farewell_interrupt]))
  /\ (forall e, value o = Raise e -> is_Exception e = true ->
      (progress ->
       r = after (output o ++ [LogInferenceError e; PrintInferenceError e])
             (session_loop w model image_files (remaining o)))
      /\ (~ progress ->
          remaining o = pending
          /\ r = (Forever,
                  output o ++ [LogInferenceError e; PrintInferenceError e])))
  /\ (forall e, value o = Raise e ->
      is_Exception e = false -> e <> KeyboardInterrupt ->
      r = (uncaught e, output o)
      /\ exists prompt, generate_content w model prompt = Raise e)
  /\ (value o = Ok Continue ->
      (progress ->
       r = after (output o) (session_loop w model image_files (remaining o)))
      /\ (~ progress -> remaining o = pending /\ r = (Forever, output o))).
Proof.
  intros r o progress. subst r o progress. split_and!.
  - apply session_loop_end.
  - intros how Hends.
    destruct (session_ends_exit w model image_files pending how Hends)
      as [Hexit Hlast].
    split_and!; [done..|].
    exact (session_ends_cause w model image_files pending how Hends).
  - apply session_loop_exit.
  - intros Hv. rewrite session_loop_step. cbv zeta. by rewrite Hv.
  - intros Hv. rewrite session_loop_step. cbv zeta. by rewrite Hv.
  - intros e Hv Hexc. rewrite session_loop_goes_on by by rewrite Hv.
    cbv zeta. rewrite Hv. cbn [handled]. split; intros Hp.
    + by destruct (decide _).
    + split; [by apply turn_no_progress|]. by destruct (decide _).
  - intros e Hv Hexc Hne. split; [by apply session_loop_escapes|].
    by apply (turn_escapes w model image_files pending).
  - intros Hv. rewrite session_loop_goes_on by by rewrite Hv.
    cbv zeta. rewrite Hv. cbn [handled]. rewrite app_nil_r.
    split; intros Hp.
    + by destruct (decide _).
    + split; [by apply turn_no_progress|]. by destruct (decide _).
Qed.

Lemma main_no_template args w model0 :
  loaded args w = Ok model0 ->
  returned (configure_ps3_and_context_length (environ w) model0) = Ok tt ->
  conv_templates w !! conv_mode args = None ->
  (main args w).1 = Traceback (KeyError (conv_mode args)).
Proof.
  intros Hload Hok Hconv. unfold main. fold (loaded args w). rewrite Hload.
  cbv zeta. by rewrite Hok, Hconv.
Qed.

Lemma banner_is_report args :
  Forall is_report
    (banner ++ [LogInfo ("Loading model from: " +:+ model_path args)]).
Proof.
  unfold banner. cbn [app].
  repeat (constructor; [eexists; first [by left|by (right; left)]|]).
  constructor.
Qed.

Lemma configured_is_report environ m :
  Forall is_report
    (LogInfo "Model loaded successfully"
     :: logged (configure_ps3_and_context_length environ m)).
Proof.
  constructor; [eexists; right; by left|].
  eapply Forall_impl; [apply configure_logs_info|]. intros ev [msg ->].
  eexists. right. by left.
Qed.

(** The start-up of [main] fails in one of three ways, having written
    nothing but reports, or goes through. *)
Lemma started_cases args w :
  (exists e, loaded args w = Raise e /\ (main args w).1 = uncaught e
             /\ Forall is_report (main args w).2)
  \/ (exists model0 e,
        loaded args w = Ok model0
        /\ returned (configure_ps3_and_context_length (environ w) model0)
           = Raise e
        /\ is_ValueError e = true
        /\ (main args w).1 = Traceback e
        /\ Forall is_report (main args w).2)
  \/ (exists model0,
        loaded args w = Ok model0
        /\ returned (configure_ps3_and_context_length (environ w) model0)
           = Ok tt
        /\ conv_templates w !! conv_mode args = None
        /\ (main args w).1 = Traceback (KeyError (conv_mode args))
        /\ Forall is_report (main args w).2)
  \/ exists model, started args w model.
Proof.
  destruct (loaded args w) as [model0|e] eqn:Hload.
  2:{ left. exists e. rewrite (main_not_loaded _ _ _ Hload).
      split_and!; [done..|]. apply banner_is_report. }
  destruct (returned (configure_ps3_and_context_length (environ w) model0))
    as [[]|e] eqn:Hok.
  2:{ right; left. exists model0, e.
      assert (is_ValueError e = true) as Hve.
      { assert (readable (environ w) = false) as Hr.
        { destruct (readable (environ w)) eqn:Hr; [|done].
          apply (configure_returns_iff (environ w) model0) in Hr. congruence. }
        destruct (configure_unreadable (environ w) model0 Hr) as (e' & He' & Hv).
        congruence. }
      rewrite (main_not_configured _ _ _ _ Hload Hok).
      split_and!; [done..|by destruct e|]. cbn [snd]. apply Forall_app.
      split; [apply banner_is_report|apply configured_is_report]. }
  destruct (conv_templates w !! conv_mode args) as [template|] eqn:Hconv.
  - right; right; right. eexists. exists model0. split_and!; [done..|by eexists].
  - right; right; left. exists model0. split_and!; [done..| |].
    + by apply (main_no_template _ _ model0).
    + unfold main. fold (loaded args w). rewrite Hload. cbv zeta.
      rewrite Hok, Hconv. unfold after. cbn [fst snd]. rewrite app_nil_r.
      apply Forall_app.
      split; [apply banner_is_report|apply configured_is_report].
Qed.

(** [main] leaves with a status when no image was found, with 1; when
    the session came to its end, with 0; and when loading the model or
    the generation raised [SystemExit], with the status of that. *)
Lemma main_exit args w status :
  (main args w).1 = Exit status ->
  loaded args w = Raise (SystemExit status)
  \/ exists model,
       started args w model
       /\ ((find_images (fs w) (images_dir args)).1 = Ok [] /\ status = 1
           \/ exists image_files,
                (find_images (fs w) (images_dir args)).1 = Ok image_files
                /\ image_files <> []
                /\ ((status = 0
                     /\ exists how,
                          session_ends w model image_files (keyboard w) how)
                    \/ exists prompt,
                         generate_content w model prompt
                         = Raise (SystemExit status))).
Proof.
  intros Hexit.
  destruct (started_cases args w)
    as [(e & Hload & Hend & _)|[(model0 & e & _ & _ & _ & Hend & _)
       |[(model0 & _ & _ & _ & Hend & _)|[model Hstarted]]]];
    [|congruence|congruence|].
  - left. rewrite Hend in Hexit. destruct e; try done. by injection Hexit as ->.
  - right. exists model. split; [done|].
    destruct (main_started _ _ _ Hstarted) as (startup & _ & Hmain).
    destruct ((find_images (fs w) (images_dir args)).1)
      as [[|img image_files]|e] eqn:Hfound.
    + left. split; [done|]. rewrite Hmain in Hexit. by injection Hexit as <-.
    + right. exists (img :: image_files). split_and!; [done..|].
      destruct (main_entered _ _ _ (img :: image_files) Hstarted Hfound)
        as [startup' Hmain']; [done|].
      rewrite Hmain' in Hexit. cbn [after fst] in Hexit.
      by apply session_loop_exit.
    + rewrite Hmain in Hexit. cbn [after fst] in Hexit.
      unfold find_images in Hfound.
      destruct (fs w (images_dir args)); cbn [fst] in Hfound; by simplify_eq.
Qed.

Lemma flag_of_spec v :
  (PyStr.lower v = "true" -> flag_of v = Some true)
  /\ (PyStr.lower v = "false" -> flag_of v = Some false)
  /\ (PyStr.lower v <> "true" -> PyStr.lower v <> "false" -> flag_of v = None).
Proof.
  unfold flag_of.
  destruct (String.eqb_spec (PyStr.lower v) "true") as [->|];
    [by split_and!|].
  destruct (String.eqb_spec (PyStr.lower v) "false"); by split_and!.
Qed.

(** C6: a [SMOOTH_SELECTION_PROB] that is neither [true] nor [false] in
    any letter case makes the function raise a [ValueError]; [main],
    once the model is loaded, then ends in that uncaught exception, and
    in no case has it asked or generated anything; [true] and [false]
    are accepted and assigned as booleans: the statement that reads the
    flag returns, and so does the function when the three variables
    read before it hold integers. *)
Theorem smooth_selection_prob_checked args w m v :
  environ w !! "SMOOTH_SELECTION_PROB" = Some v ->
  (PyStr.lower v <> "true" -> PyStr.lower v <> "false" ->
   raises_ValueError (configure_ps3_and_context_length (environ w) m)
   /\ (forall model0, loaded args w = Ok model0 ->
       exists e, (main args w).1 = Traceback e /\ is_ValueError e = true)
   /\ (forall ev, In ev (main args w).2 ->
       (forall prompt, ev <> Generate prompt) /\ (forall text, ev <> Prompt text)))
  /\ (forall b : bool,
      PyStr.lower v = (if b then "true" else "false") ->
      flag_override (Some v) m
      = mkMutated (Ok tt) (set_smooth_selection_prob b m)
          [LogInfo ("Smooth selection prob: " +:+ v)]
      /\ ((forall x, environ w !! "NUM_LOOK_CLOSE" = Some x ->
           is_Some (PyStr.int x)) ->
          (forall x, environ w !! "NUM_TOKEN_LOOK_CLOSE" = Some x ->
           is_Some (PyStr.int x)) ->
          (forall x, environ w !! "SELECT_NUM_EACH_SCALE" = Some x ->
           is_Some (mapM PyStr.int (PyStr.split "+" x))) ->
          returned (configure_ps3_and_context_length (environ w) m) = Ok tt)
      /\ (returned (configure_ps3_and_context_length (environ w) m) = Ok tt ->
          smooth_selection_prob
            (model_after (configure_ps3_and_context_length (environ w) m))
          = Some b)).
Proof.
  intros Hv. destruct (flag_of_spec v) as (Htrue & Hfalse & Hnone).
  split.
  - intros H1 H2.
    assert (Hunreadable : readable (environ w) = false).
    { unfold readable. rewrite Hv, (Hnone H1 H2).
      rewrite bool_decide_eq_false_2 by (by intros []). apply andb_false_r. }
    split; [by apply configure_unreadable|].
    destruct (loaded args w) as [model0|e0] eqn:Hload.
    + destruct (configure_unreadable (environ w) model0 Hunreadable)
        as (e & He & Hve).
      rewrite (main_not_configured args w model0 e Hload He). cbn [fst snd].
      split; [intros _ _; exists e; by destruct e|].
      intros ev [[Hev|Hev]%in_app_iff|Hev]%in_app_iff.
      * unfold banner in Hev. cbn in Hev. intuition (subst; discriminate).
      * cbn in Hev. intuition (subst; discriminate).
      * destruct Hev as [<-|Hev]; [by split|].
        pose proof (configure_logs_info (environ w) model0) as Hlog.
        rewrite Forall_forall in Hlog.
        destruct (Hlog ev) as [msg ->]; [by apply list_elem_of_In|by split].
    + rewrite (main_not_loaded args w e0 Hload). cbn [fst snd].
      split; [done|].
      intros ev [Hev|Hev]%in_app_iff.
      * unfold banner in Hev. cbn in Hev. intuition (subst; discriminate).
      * cbn in Hev. intuition (subst; discriminate).
  - intros b Hb.
    assert (Hflag : flag_of v = Some b)
      by (destruct b; [by apply Htrue|by apply Hfalse]).
    split_and!.
    + by rewrite flag_override_run, Hflag.
    + intros H1 H2 H3. apply configure_returns_iff, readable_spec.
      split_and!; [done..|]. intros x Hx. rewrite Hv in Hx.
      injection Hx as <-. by rewrite Hflag.
    + intros Hok.
      destruct (configure_assigns (environ w) m Hok) as (_&_&_&_& Hset &_).
      destruct (Hset v Hv) as [_ ->]. done.
Qed.

(** C8, as the code has it: when [exists()] is false for the directory,
    [find_images] logs an error and returns the empty list; when the
    file system fails on it, so that [exists()] itself raises,
    [find_images] raises and [main] ends in that exception; after a start-up that went through, an empty list
    makes [main] leave with status 1, and a list that is not empty makes
    it end as the session loop does: with status 0 when the session
    comes to its end by a quit token or an interrupt. *)
Theorem no_images_exit_status args w model :
  (fs w (images_dir args) = Absent ->
   find_images (fs w) (images_dir args)
   = (Ok [], [LogError ("Images directory not found: " +:+ images_dir args)]))
  /\ (forall cls msg, fs w (images_dir args) = FsFails cls msg ->
      find_images (fs w) (images_dir args) = (Raise (LibraryError cls msg), [])
      /\ (started args w model ->
          (main args w).1 = Traceback (LibraryError cls msg)))
  /\ (started args w model ->
      (find_images (fs w) (images_dir args)).1 = Ok [] ->
      (main args w).1 = Exit 1)
  /\ (started args w model ->
      forall image_files,
        (find_images (fs w) (images_dir args)).1 = Ok image_files ->
        image_files <> [] ->
        (main args w).1 = (session_loop w model image_files (keyboard w)).1
        /\ (forall how,
              session_ends w model image_files (keyboard w) how ->
              (main args w).1 = Exit 0)
        /\ (forall status, (main args w).1 = Exit status ->
            (status = 0
             /\ exists how, session_ends w model image_files (keyboard w) how)
            \/ exists prompt,
                 generate_content w model prompt = Raise (SystemExit status)))
  /\ (forall status, (main args w).1 = Exit status ->
      loaded args w = Raise (SystemExit status)
      \/ exists model',
           started args w model'
           /\ ((find_images (fs w) (images_dir args)).1 = Ok [] /\ status = 1
               \/ exists image_files,
                    (find_images (fs w) (images_dir args)).1 = Ok image_files
                    /\ image_files <> []
                    /\ ((status = 0
                         /\ exists how,
                              session_ends w model' image_files (keyboard w) how)
                        \/ exists prompt,
                             generate_content w model' prompt
                             = Raise (SystemExit status)))).
Proof.
  split_and!; [| | | |apply main_exit].
  - intros Habsent. unfold find_images. by rewrite Habsent.
  - intros cls msg Hfails.
    assert (Hraise : find_images (fs w) (images_dir args)
                     = (Raise (LibraryError cls msg), []))
      by (unfold find_images; by rewrite Hfails).
    split; [done|]. intros (startup & _ & ->)%main_started. by rewrite Hraise.
  - intros (startup & _ & ->)%main_started Hnone. by rewrite Hnone.
  - intros Hstarted image_files Hfound Hsome.
    destruct (main_entered _ _ _ _ Hstarted Hfound Hsome) as [startup Hmain].
    assert (Hend : (main args w).1
                   = (session_loop w model image_files (keyboard w)).1)
      by by rewrite Hmain.
    split_and!; [done| |].
    + intros how Hends. rewrite Hend. by apply (session_ends_exit _ _ _ _ how).
    + intros status Hexit. rewrite Hend in Hexit. by apply session_loop_exit.
Qed.

(* ================================================================= *)
(** ** The remote client *)

Section RemoteClient.

Import Client.

Lemma answer_first_choice (top first_choice message : gmap string json)
  (others : list json) (content : json) :
  top !! "choices" = Some (JArray (JObject first_choice :: others)) ->
  first_choice !! "message" = Some (JObject message) ->
  message !! "content" = Some content ->
  answer (JObject top) = Ok content.
Proof.
  intros Hchoices Hmessage Hcontent. unfold answer, item, first, and_then.
  by rewrite Hchoices, Hmessage, Hcontent.
Qed.

End RemoteClient.

(** C10: the client sends one POST request, whose JSON body has one
    message of role [user] with a text part followed by an image_url
    part, under the headers [Content-Type: application/json] and
    [Authorization: Bearer fake-key]; from a response that has the
    fields it prints the content of the message of the first choice,
    whatever the other choices are, and nothing else. *)
Theorem client_posts_and_prints_first_choice
  (server : Client.request -> result Client.json) :
  let r := Client.mkRequest "POST" Client.url Client.headers Client.data in
  ((Client.client server).2 = [Client.Send r]
   \/ exists content,
        (Client.client server).2 = [Client.Send r; Client.PrintValue content])
  /\ (Client.headers !! "Content-Type" = Some "application/json"
      /\ Client.headers !! "Authorization" = Some ("Bearer " +:+ "fake-key")
      /\ size Client.headers = 2%nat)
  /\ (exists message text_part image_part text address,
        Client.item Client.data "messages" = Ok (Client.JArray [message])
        /\ Client.item message "role" = Ok (Client.JString "user")
        /\ Client.item message "content"
           = Ok (Client.JArray [text_part; image_part])
        /\ text_part
           = Client.JObject {[ "type" := Client.JString "text";
                               "text" := Client.JString text ]}
        /\ image_part
           = Client.JObject
               {[ "type" := Client.JString "image_url";
                  "image_url" :=
                    Client.JObject {[ "url" := Client.JString address ]} ]})
  /\ (forall parsed content,
        server r = Ok parsed -> Client.answer parsed = Ok content ->
        Client.client server
        = (Exit 0, [Client.Send r; Client.PrintValue content]))
  /\ (forall (top first_choice message : gmap string Client.json) others content,
        top !! "choices"
        = Some (Client.JArray (Client.JObject first_choice :: others)) ->
        first_choice !! "message" = Some (Client.JObject message) ->
        message !! "content" = Some content ->
        server r = Ok (Client.JObject top) ->
        Client.client server
        = (Exit 0, [Client.Send r; Client.PrintValue content])).
Proof.
  intros r.
  assert (Hprint : forall parsed content,
             server r = Ok parsed -> Client.answer parsed = Ok content ->
             Client.client server
             = (Exit 0, [Client.Send r; Client.PrintValue content])).
  { intros parsed content Hserver Hanswer. unfold Client.client. fold r.
    by rewrite Hserver, Hanswer. }
  split_and!.
  - unfold Client.client. fold r. destruct (server r) as [parsed|e]; [|by left].
    destruct (Client.answer parsed) as [content|e]; [|by left].
    right. by exists content.
  - reflexivity.
  - reflexivity.
  - by vm_compute.
  - by repeat eexists.
  - exact Hprint.
  - intros top first_choice message others content H1 H2 H3 Hserver.
    apply (Hprint _ _ Hserver). by eapply answer_first_choice.
Qed.

(* ================================================================= *)
(** ** The claims on example inputs *)

Lemma get_text_input_result_witness :
  value (get_text_input [Line "  QuIt "; Line "later"]) = Ok None.
Proof.
  destruct (get_text_input_result "  QuIt " [Line "later"]) as (_ & H & _).
  apply H. left. reflexivity.
Defined.

Lemma smooth_selection_prob_checked_witness :
  (raises_ValueError
     (configure_ps3_and_context_length smooth_maybe loaded_model)
   /\ (forall model0,
         loaded default_args (example_world smooth_maybe two_images [Line "1"])
         = Ok model0 ->
         exists e,
           (main default_args (example_world smooth_maybe two_images [Line "1"])).1
           = Traceback e
           /\ is_ValueError e = true)
   /\ (forall ev,
         In ev (main default_args (example_world smooth_maybe two_images [Line "1"])).2 ->
         (forall prompt, ev <> Generate prompt) /\ (forall text, ev <> Prompt text)))
  /\ (returned (configure_ps3_and_context_length two_overrides loaded_model)
      = Ok tt
      /\ smooth_selection_prob
           (model_after (configure_ps3_and_context_length two_overrides loaded_model))
         = Some true).
Proof.
  split.
  - destruct (smooth_selection_prob_checked default_args
                (example_world smooth_maybe two_images [Line "1"])
                loaded_model "maybe" eq_refl) as [H _].
    apply H; discriminate.
  - destruct (smooth_selection_prob_checked default_args
                (example_world two_overrides two_images [Line "1"])
                loaded_model "True" eq_refl) as [_ H].
    destruct (H true eq_refl) as (_ & Hreturns & Hassigned).
    assert (returned (configure_ps3_and_context_length two_overrides loaded_model)
            = Ok tt) as Hok.
    { apply Hreturns; intros x Hx; vm_compute in Hx; simplify_eq.
      by eexists. }
    split; [exact Hok|exact (Hassigned Hok)].
Defined.

Lemma session_loop_left_by_quit_or_interrupt_witness :
  (session_loop (example_world ∅ two_images []) loaded_model
     [mkPath "images" "a.jpg"; mkPath "images" "b.png"] [Line "2"; Line "Q"]).1
  = Exit 0.
Proof.
  destruct (session_loop_left_by_quit_or_interrupt
              (example_world ∅ two_images []) loaded_model
              [mkPath "images" "a.jpg"; mkPath "images" "b.png"]
              [Line "2"; Line "Q"]) as (_ & H & _).
  apply (H ByQuit). apply ends_by_quit. reflexivity.
Defined.

(** C7 as stated fails: [sys.exit(3)] inside the generation is an
    exception raised during a turn; it is not caught, logged or shown,
    the loop does not go on to the quit token that follows, and the
    process leaves with status 3. *)
Lemma session_loop_left_by_system_exit :
  value (turn (exiting_world []) loaded_model
           [mkPath "images" "a.jpg"; mkPath "images" "b.png"]
           [Line "1"; Line "What is this?"; Line "1"; Line "quit"])
  = Raise (SystemExit 3)
  /\ session_loop (exiting_world []) loaded_model
       [mkPath "images" "a.jpg"; mkPath "images" "b.png"]
       [Line "1"; Line "What is this?"; Line "1"; Line "quit"]
     = (Exit 3,
        [Print (nl +:+ "=== Available Images ===");
         PrintImage 1 "a.jpg" 2048; PrintImage 2 "b.png" 2048; Print "";
         Prompt select_prompt;
         Print (nl +:+ "Selected 1 image(s):"); Print "  - a.jpg";
         Print (nl +:+ "Enter your question (or 'quit' to exit):");
         Prompt "> ";
         Print (nl +:+ "[Processing...]");
         Generate [Image "images/a.jpg"; Text "What is this?"]]).
Proof.
  split; [reflexivity|].
  rewrite (session_loop_escapes _ _ _ _ (SystemExit 3)); [|reflexivity|done..].
  reflexivity.
Qed.

Lemma no_images_exit_status_witness :
  (main default_args (example_world ∅ Absent [Line "1"])).1 = Exit 1
  /\ (main default_args
        (example_world ∅ two_images [Line "1"; Line "quit"])).1 = Exit 0.
Proof.
  split.
  - destruct (no_images_exit_status default_args
                (example_world ∅ Absent [Line "1"])
                (model_after (configure_ps3_and_context_length ∅ loaded_model)))
      as (_ & _ & H & _).
    apply H.
    + exists loaded_model. split_and!; [reflexivity..|]. by eexists.
    + reflexivity.
  - destruct (no_images_exit_status default_args
                (example_world ∅ two_images [Line "1"; Line "quit"])
                (model_after (configure_ps3_and_context_length ∅ loaded_model)))
      as (_ & _ & _ & H & _).
    destruct (H (ltac:(exists loaded_model; split_and!;
                        [reflexivity..|by eexists]))
                [mkPath "images" "a.jpg"; mkPath "images" "b.png"])
      as (_ & Hquit & _); [reflexivity|done|].
    apply (Hquit ByQuit). apply ends_by_quit. reflexivity.
Defined.

(** C8 as stated fails: no directory of the name [long_name] exists, yet
    [find_images] logs nothing and returns nothing: it raises the
    [OSError] of [exists()], and [main] ends in that exception. *)
Lemma find_images_name_too_long :
  String.length long_name = 300%nat
  /\ find_images (fs long_name_world) long_name
     = (Raise (LibraryError "OSError" "[Errno 36] File name too long"), [])
  /\ (main (mkArgs "NVILA-Lite-8B" long_name "vicuna_v1" None)
        long_name_world).1
     = Traceback (LibraryError "OSError" "[Errno 36] File name too long").
Proof. by vm_compute. Qed.

Lemma client_posts_and_prints_first_choice_witness :
  Client.client two_choices
  = (Exit 0,
     [Client.Send (Client.mkRequest "POST" Client.url Client.headers Client.data);
      Client.PrintValue (Client.JString "A logo.")]).
Proof.
  destruct (client_posts_and_prints_first_choice two_choices) as (_ & _ & _ & H & _).
  apply (H _ _ eq_refl). reflexivity.
Defined.

(* ================================================================= *)
(** * Further properties *)

(** ** More about the catalog *)

Lemma find_images_permutation fs dir entries :
  fs dir = Directory entries ->
  exists image_files,
    find_images fs dir = (Ok image_files, [])
    /\ StronglySorted Path_le image_files
    /\ image_files ≡ₚ mkPath dir <$> List.filter matches_glob entries.
Proof.
  intros Hfs. eexists. split; [by apply find_images_directory|].
  split; [apply (StronglySorted_merge_sort Path_le)|]. unfold sorted.
  rewrite merge_sort_Permutation. apply fmap_Permutation.
  apply flat_map_filter_exclusive.
  - apply (bool_decide_unpack (NoDup glob_suffixes)). by vm_compute.
  - intros p q x. apply glob_suffixes_exclusive.
Qed.

Lemma list_filter_Permutation {A} (f : A -> bool) (l k : list A) :
  l ≡ₚ k -> List.filter f l ≡ₚ List.filter f k.
Proof.
  induction 1 as [|x l k _ IH|x y l|l k j _ IH1 _ IH2]; cbn [List.filter].
  - done.
  - destruct (f x); by rewrite IH.
  - destruct (f x), (f y); by try apply perm_swap.
  - by etrans.
Qed.

Global Instance Path_le_antisymm : AntiSymm (=) Path_le.
Proof.
  intros [d1 n1] [d2 n2]. unfold Path_le, Path_leb. cbn [parent name].
  rewrite (String.eqb_sym d2).
  destruct (String.eqb_spec d1 d2) as [->|Hne]; intros H1 H2.
  - f_equal. by apply (anti_symm String.le).
  - destruct Hne. by apply (anti_symm String.le).
Qed.

(** X1: every path [find_images] returns lies in the directory asked
    for, names an entry of that directory, and has one of the five
    extensions up to letter case; distinct entries give distinct paths,
    and never more paths than entries. *)
Theorem find_images_returns_images_only fs dir entries :
  fs dir = Directory entries ->
  exists image_files,
    find_images fs dir = (Ok image_files, [])
    /\ Forall (fun img => parent img = dir /\ In (name img) entries
                          /\ has_supported_extension (name img) = true)
         image_files
    /\ (NoDup entries -> NoDup image_files)
    /\ (length image_files <= length entries)%nat.
Proof.
  intros (image_files & Hfound & _ & Hperm)%find_images_permutation.
  exists image_files. split; [done|]. split_and!.
  - eapply Permutation_Forall; [symmetry; exact Hperm|].
    apply Forall_fmap, Forall_forall.
    intros file [Hin Hglob]%list_elem_of_In%filter_In. cbn.
    split_and!; [done..|]. by apply matches_glob_supported.
  - intros Hnd. apply NoDup_ListNoDup.
    eapply Permutation_NoDup; [symmetry; exact Hperm|].
    apply NoDup_ListNoDup, NoDup_fmap_2; [by intros ?? [=]|].
    apply NoDup_ListNoDup, List.NoDup_filter. by apply NoDup_ListNoDup.
  - rewrite (Permutation_length Hperm), length_fmap.
    apply List.filter_length_le.
Qed.

Lemma find_images_returns_images_only_witness :
  exists image_files,
    find_images mixed_case_dir "images" = (Ok image_files, [])
    /\ Forall (fun img => parent img = "images"
                          /\ In (name img) ["b.png"; "a.Jpg"; "c.txt"; "d.JPEG"]
                          /\ has_supported_extension (name img) = true)
         image_files
    /\ (NoDup ["b.png"; "a.Jpg"; "c.txt"; "d.JPEG"] -> NoDup image_files)
    /\ (length image_files
        <= length ["b.png"; "a.Jpg"; "c.txt"; "d.JPEG"])%nat.
Proof. apply (find_images_returns_images_only mixed_case_dir). reflexivity. Defined.

(** X2: the catalog does not depend on the order in which the operating
    system lists the directory: two listings of the same entries give the
    same list of paths. *)
Theorem find_images_listing_order fs1 fs2 dir entries1 entries2 :
  fs1 dir = Directory entries1 ->
  fs2 dir = Directory entries2 ->
  entries1 ≡ₚ entries2 ->
  find_images fs1 dir = find_images fs2 dir.
Proof.
  intros (l1 & -> & Hs1 & Hp1)%find_images_permutation
         (l2 & -> & Hs2 & Hp2)%find_images_permutation Hp.
  do 2 f_equal. apply (StronglySorted_unique Path_le); [done..|].
  etrans; [exact Hp1|]. etrans; [|symmetry; exact Hp2].
  by apply fmap_Permutation, list_filter_Permutation.
Qed.

Lemma find_images_listing_order_witness :
  find_images (fun _ => Directory ["b.png"; "a.jpg"; "c.txt"]) "images"
  = find_images (fun _ => Directory ["c.txt"; "a.jpg"; "b.png"]) "images".
Proof.
  apply (find_images_listing_order _ _ "images"
           ["b.png"; "a.jpg"; "c.txt"] ["c.txt"; "a.jpg"; "b.png"]);
    [reflexivity..|].
  etrans; [apply perm_swap|]. etrans; [apply perm_skip, perm_swap|].
  etrans; [apply perm_swap|]. done.
Defined.

(* ================================================================= *)
(** ** More about the listing *)

Lemma display_lines_run st idx before rest :
  Forall (fun img => is_Some (st img)) before ->
  match rest with [] => True | img :: _ => st img = None end ->
  display_lines st idx (before ++ rest)
  = (match rest with
     | [] => Ok tt
     | img :: _ => Raise (LibraryError "FileNotFoundError" (Path_str img))
     end,
     listing st idx before).
Proof.
  intros Hbefore Hrest. revert idx.
  induction Hbefore as [|img before [size Hsize] _ IH]; intros idx.
  - destruct rest as [|img rest]; [done|]. cbn [app display_lines].
    by rewrite Hrest.
  - cbn [app display_lines]. rewrite Hsize, IH. unfold listing.
    cbn [imap]. rewrite Hsize, Z.add_0_r. cbn [default from_option id].
    do 2 f_equal. apply imap_ext. intros i p _. cbn. f_equal. lia.
Qed.

(** X3: [display_images] prints the header, then one line for each file
    with the indices 1, 2, 3, ... in the order of the catalog, then an
    empty line; when the size of a file cannot be read it raises at that
    file, having printed the lines of the files before it; it reads
    nothing from the terminal. *)
Theorem display_images_listing st before rest pending :
  Forall (fun img => is_Some (st img)) before ->
  match rest with [] => True | img :: _ => st img = None end ->
  display_images st (before ++ rest) pending
  = mkOutcome
      (match rest with
       | [] => Ok tt
       | img :: _ => Raise (LibraryError "FileNotFoundError" (Path_str img))
       end)
      pending
      (Print (nl +:+ "=== Available Images ===")
       :: listing st 1 before
       ++ match rest with [] => [Print ""] | _ => [] end).
Proof.
  intros Hbefore Hrest. unfold display_images.
  rewrite (display_lines_run st 1 before rest Hbefore Hrest).
  destruct rest; [done|]. by rewrite app_nil_r.
Qed.

Lemma display_images_listing_witness :
  display_images (fun img => if String.eqb (name img) "gone.png" then None else Some 2048)
    ([mkPath "images" "a.jpg"; mkPath "images" "b.png"]
     ++ [mkPath "images" "gone.png"; mkPath "images" "z.gif"])
    [Line "1"]
  = mkOutcome (Raise (LibraryError "FileNotFoundError" "images/gone.png"))
      [Line "1"]
      [Print (nl +:+ "=== Available Images ===");
       PrintImage 1 "a.jpg" 2048; PrintImage 2 "b.png" 2048].
Proof.
  etrans.
  - apply (display_images_listing
             (fun img => if String.eqb (name img) "gone.png" then None else Some 2048)
             [mkPath "images" "a.jpg"; mkPath "images" "b.png"]
             [mkPath "images" "gone.png"; mkPath "images" "z.gif"]).
    + repeat constructor; by eexists.
    + reflexivity.
  - reflexivity.
Defined.

(* ================================================================= *)
(** ** More about selecting images *)

Lemma split_not_empty sep s : PyStr.split sep s <> [].
Proof.
  destruct s as [|c s]; [done|]. cbn [PyStr.split].
  destruct (Ascii.eqb c sep); [done|]. by destruct (PyStr.split sep s).
Qed.

Lemma parse_indices_not_empty selection indices :
  parse_indices selection = Some indices -> indices <> [].
Proof.
  unfold parse_indices. intros Hp%mapM_Some_1%Forall2_length Hnil.
  subst indices.
  by destruct (PyStr.split "," selection) eqn:Hs;
    [apply split_not_empty in Hs|].
Qed.

Lemma select_by_index_in_range image_files indices picks selected :
  Forall2 (fun idx img => 1 <= idx /\ image_files !! Z.to_nat (idx - 1) = Some img)
    indices picks ->
  select_by_index image_files indices selected
  = (Ok (match selected ++ picks with [] => Again | l => Return l end), []).
Proof.
  intros Hpicks. revert selected.
  induction Hpicks as [|idx img indices picks [Hlow Himg] _ IH]; intros selected.
  - cbn [select_by_index]. rewrite app_nil_r. by destruct selected.
  - cbn [select_by_index].
    assert (Hin : (1 <=? idx) && (idx <=? Z.of_nat (length image_files)) = true).
    { apply in_range_test. split; [done|].
      apply lookup_lt_Some in Himg. lia. }
    by rewrite Hin, Himg, IH, <-app_assoc.
Qed.

(** X4: an answer that [int] reads as a comma-separated list of
    indices (none of more than 4300 digits), all within 1..len(catalog),
    makes [select_images] return the entries at these indices, in the
    order typed and as often as typed. *)
Theorem select_images_by_indices image_files raw rest indices picks :
  parse_indices (PyStr.strip raw) = Some indices ->
  Forall2 (fun idx img => 1 <= idx /\ image_files !! Z.to_nat (idx - 1) = Some img)
    indices picks ->
  select_images image_files (Line raw :: rest)
  = mkOutcome (Ok picks) rest [Prompt select_prompt].
Proof.
  intros Hparse Hpicks.
  destruct (parse_indices_Some _ _ Hparse) as [Hne Hall].
  rewrite select_images_line. cbv zeta.
  rewrite Hne, Hall, Hparse, (select_by_index_in_range _ _ picks) by done.
  cbn [app]. destruct picks; [|done].
  apply Forall2_length in Hpicks. apply parse_indices_not_empty in Hparse.
  by destruct indices.
Qed.

Lemma select_images_by_indices_witness :
  select_images [mkPath "images" "a.jpg"; mkPath "images" "b.png"]
    (Line " 2, 1 ,2" :: [Line "next"])
  = mkOutcome
      (Ok [mkPath "images" "b.png"; mkPath "images" "a.jpg"; mkPath "images" "b.png"])
      [Line "next"] [Prompt select_prompt].
Proof.
  apply (select_images_by_indices _ _ _ [2; 1; 2]); [reflexivity|].
  repeat (constructor; [split; [lia|reflexivity]|]). constructor.
Defined.

(** X5: the answer [all], in any letter case and with white space around
    it, makes [select_images] return the whole catalog in its order. *)
Theorem select_images_all image_files raw rest :
  PyStr.lower (PyStr.strip raw) = "all" ->
  select_images image_files (Line raw :: rest)
  = mkOutcome (Ok image_files) rest [Prompt select_prompt].
Proof.
  intros Hall. rewrite select_images_line. cbv zeta. rewrite Hall.
  destruct (String.eqb_spec (PyStr.strip raw) "") as [Hempty|]; [|done].
  by rewrite Hempty in Hall.
Qed.

Lemma select_images_all_witness :
  select_images [mkPath "images" "a.jpg"; mkPath "images" "b.png"]
    (Line "  ALL " :: [])
  = mkOutcome (Ok [mkPath "images" "a.jpg"; mkPath "images" "b.png"]) []
      [Prompt select_prompt].
Proof. apply select_images_all. reflexivity. Defined.

(** X6: answers of white space only are turned down one by one, each
    with the request to enter a selection, and [select_images] goes on
    with what follows them as if they had not been typed. *)
Theorem select_images_skips_blank_answers image_files blanks pending :
  Forall (fun raw => PyStr.strip raw = "") blanks ->
  select_images image_files ((Line <$> blanks) ++ pending)
  = emit
      (blanks ≫= fun _ => [Prompt select_prompt; Print "Please enter a selection."])
      (select_images image_files pending).
Proof.
  induction 1 as [|raw blanks Hraw _ IH].
  - cbn [fmap list_fmap app mbind list_bind]. unfold emit. cbn [app].
    by destruct (select_images image_files pending).
  - cbn [fmap list_fmap app]. rewrite select_images_line. cbv zeta.
    rewrite Hraw, IH. reflexivity.
Qed.

Lemma select_images_skips_blank_answers_witness :
  select_images [mkPath "images" "a.jpg"] ((Line <$> [""; "   "]) ++ [Line "1"])
  = emit
      ([""; "   "] ≫= fun _ => [Prompt select_prompt; Print "Please enter a selection."])
      (select_images [mkPath "images" "a.jpg"] [Line "1"]).
Proof.
  apply select_images_skips_blank_answers. by repeat constructor.
Defined.

Lemma select_by_index_from_catalog image_files indices selected r evs :
  Forall (fun img => In img image_files) selected ->
  select_by_index image_files indices selected = (Ok (Return r), evs) ->
  Forall (fun img => In img image_files) r.
Proof.
  revert selected. induction indices as [|idx indices IH]; intros selected Hsel.
  - cbn [select_by_index]. destruct selected; intros [= <- <-]; done.
  - cbn [select_by_index]. destruct (_ && _); [|by intros [= <- <-]].
    destruct (image_files !! _) as [img|] eqn:Himg; [|done].
    apply IH, Forall_app. split; [done|].
    repeat constructor. apply list_elem_of_In. by eapply list_elem_of_lookup_2.
Qed.

(** A selection that [select_images] returns consists of entries of the
    catalog and has cost at least one answer. *)
Lemma select_images_returned image_files pending selected :
  value (select_images image_files pending) = Ok selected ->
  Forall (fun img => In img image_files) selected
  /\ (length (remaining (select_images image_files pending)) < length pending)%nat.
Proof.
  induction pending as [|[raw|] rest IH]; [done| |done].
  rewrite select_images_line. cbv zeta.
  assert (Hrec : value (select_images image_files rest) = Ok selected ->
    Forall (fun img => In img image_files) selected
    /\ (length (remaining (select_images image_files rest))
        < length (Line raw :: rest))%nat).
  { intros [? ?]%IH. split; [done|]. cbn [length]. lia. }
  destruct (String.eqb _ ""); [exact Hrec|].
  destruct (String.eqb _ "all").
  { cbn. intros [= <-]. split; [|lia].
    apply Forall_forall. intros ? ?. by apply list_elem_of_In. }
  destruct (parse_indices _) as [indices|].
  - destruct (select_by_index image_files indices []) as [[[r|]|e] evs] eqn:Hidx;
      [|exact Hrec|done].
    cbn. intros [= <-]. split; [|lia].
    by eapply select_by_index_from_catalog; [|exact Hidx].
  - unfold name_matches.
    destruct (List.filter _ image_files) as [|img matches] eqn:Hm; [exact Hrec|].
    cbn. intros [= <-]. split; [|lia]. rewrite <-Hm.
    apply Forall_forall. by intros img' [? _]%list_elem_of_In%filter_In.
Qed.

(** X7: whatever is typed, a selection that [select_images] returns
    consists of entries of the catalog; it is returned only after at
    least one answer was read, and what is left on the terminal is an
    end piece of what was there. *)
Theorem select_images_returns_catalog_entries image_files pending selected :
  value (select_images image_files pending) = Ok selected ->
  Forall (fun img => In img image_files) selected
  /\ remaining (select_images image_files pending) `suffix_of` pending
  /\ (length (remaining (select_images image_files pending)) < length pending)%nat.
Proof.
  intros Hsel. destruct (select_images_returned _ _ _ Hsel) as [Hcat Hlen].
  split_and!; [exact Hcat| |exact Hlen]. apply select_images_remaining.
Qed.

Lemma select_images_returns_catalog_entries_witness :
  Forall (fun img => In img [mkPath "images" "a.jpg"; mkPath "images" "b.png"])
    [mkPath "images" "b.png"]
  /\ remaining (select_images
                  [mkPath "images" "a.jpg"; mkPath "images" "b.png"]
                  [Line ""; Line "B"; Line "q"])
     `suffix_of` [Line ""; Line "B"; Line "q"]
  /\ (length (remaining (select_images
                [mkPath "images" "a.jpg"; mkPath "images" "b.png"]
                [Line ""; Line "B"; Line "q"]))
      < length [Line ""; Line "B"; Line "q"])%nat.
Proof.
  apply (select_images_returns_catalog_entries
           [mkPath "images" "a.jpg"; mkPath "images" "b.png"]
           [Line ""; Line "B"; Line "q"]).
  reflexivity.
Defined.

(* ================================================================= *)
(** ** More about the configuration *)

Lemma max_with_above limit bounds :
  Forall (fun b => b <= limit) bounds -> max_with limit bounds = limit.
Proof.
  unfold max_with. induction 1 as [|b bounds Hb _ IH]; [done|].
  cbn [fold_right]. rewrite IH. lia.
Qed.

Lemma configured_idempotent environ m :
  configured environ (configured environ m) = configured environ m.
Proof.
  unfold configured.
  generalize (environ !! "NUM_LOOK_CLOSE" ≫= PyStr.int),
    (environ !! "NUM_TOKEN_LOOK_CLOSE" ≫= PyStr.int),
    (environ !! "SELECT_NUM_EACH_SCALE"
       ≫= fun v => mapM PyStr.int (PyStr.split "+" v)),
    (environ !! "LOOK_CLOSE_MODE"),
    (environ !! "SMOOTH_SELECTION_PROB" ≫= flag_of).
  intros p1 p2 p3 p4 p5. unfold configured_from. cbv zeta.
  cbn [tokenizer Tokenizer.model_max_length num_look_close num_token_look_close
       max_select_num_each_scale look_close_mode smooth_selection_prob checkpoint].
  rewrite (max_with_above (max_with _ _)) by apply max_with_is_maximum.
  by destruct p1, p2, p3, p4, p5.
Qed.

(** X8: configuring twice is configuring once: a second run in the same
    environment returns as the first did and leaves the model as the
    first run left it. *)
Theorem configure_twice environ m :
  returned (configure_ps3_and_context_length environ m) = Ok tt ->
  let m' := model_after (configure_ps3_and_context_length environ m) in
  returned (configure_ps3_and_context_length environ m') = Ok tt
  /\ model_after (configure_ps3_and_context_length environ m') = m'.
Proof.
  intros Hok m'. subst m'. rewrite (configured_after _ _ Hok).
  apply configure_returns_iff in Hok.
  destruct (configure_readable environ (configured environ m) Hok) as [-> ->].
  split; [done|]. apply configured_idempotent.
Qed.

Lemma configure_twice_witness :
  let m' := model_after (configure_ps3_and_context_length two_overrides loaded_model) in
  returned (configure_ps3_and_context_length two_overrides m') = Ok tt
  /\ model_after (configure_ps3_and_context_length two_overrides m') = m'.
Proof. apply configure_twice. reflexivity. Defined.

(** X9: whatever variables are set, after a run that returns the five
    configuration locations hold one value, the maximum of the
    tokenizer's former limit and the bounds present; it is never below
    the former limit and equals it when neither count is set. *)
Theorem context_length_never_shrinks environ m :
  returned (configure_ps3_and_context_length environ m) = Ok tt ->
  let m' := model_after (configure_ps3_and_context_length environ m) in
  let limit := Tokenizer.model_max_length (tokenizer m) in
  let c := Tokenizer.model_max_length (tokenizer m') in
  c = max_with limit (present_bounds environ)
  /\ config m' = Config.mk (Some c) (Some c)
  /\ llm_config m' = Config.mk (Some c) (Some c)
  /\ limit <= c
  /\ (environ !! "NUM_LOOK_CLOSE" = None ->
      environ !! "NUM_TOKEN_LOOK_CLOSE" = None -> c = limit).
Proof.
  intros Hok m' limit c. subst m' limit c. rewrite (configured_after _ _ Hok).
  unfold configured, configured_from. cbv zeta.
  cbn [tokenizer config llm_config Tokenizer.model_max_length].
  split_and!; [done..| |].
  - apply max_with_is_maximum.
  - by intros -> ->.
Qed.

Lemma context_length_never_shrinks_witness :
  let m' := model_after (configure_ps3_and_context_length two_overrides loaded_model) in
  let c := Tokenizer.model_max_length (tokenizer m') in
  c = max_with 4096 (present_bounds two_overrides)
  /\ config m' = Config.mk (Some c) (Some c)
  /\ llm_config m' = Config.mk (Some c) (Some c)
  /\ 4096 <= c
  /\ (two_overrides !! "NUM_LOOK_CLOSE" = None ->
      two_overrides !! "NUM_TOKEN_LOOK_CLOSE" = None -> c = 4096).
Proof.
  apply (context_length_never_shrinks two_overrides loaded_model). reflexivity.
Defined.

Section Keeping.

Context {B : Type} (f : Model -> B) (x : B).

Lemma keeping_first {A C} (c : Mut A) (k : A -> Mut C) m :
  raises_keeping f x (c m) -> raises_keeping f x ((c ≫= k) m).
Proof.
  intros (e & He & Hv & Hf). exists e.
  destruct (c m) as [r m' entries] eqn:Hc. cbn in He, Hf. subst r.
  by erewrite bind_Raise by exact Hc.
Qed.

Lemma keeping_later {A C} (P : event -> Prop) (c : Mut A) (k : A -> Mut C) m :
  f m = x -> respects f P c -> only_ValueError c ->
  (forall a m', f m' = x -> raises_keeping f x (k a m')) ->
  raises_keeping f x ((c ≫= k) m).
Proof.
  intros Hm Hc Hve Hk. destruct (Hc m) as [Hf _].
  destruct (c m) as [[a|e] m' entries] eqn:Hcm; cbn in Hf.
  - erewrite bind_Ok by exact Hcm.
    destruct (Hk a m') as (e & He & Hv & Hfe); [congruence|]. by exists e.
  - erewrite bind_Raise by exact Hcm. exists e. split_and!; [done| |cbn; congruence].
    apply (Hve m). by rewrite Hcm.
Qed.

End Keeping.

Section KeepingSteps.

Context {B : Type} (f : Model -> B).

Lemma int_override_keeps msg set o :
  (forall n m, f (set n m) = f m) ->
  respects f (fun _ : event => True) (int_override msg set o).
Proof.
  intros Hset m. rewrite int_override_run.
  destruct o as [v|]; [destruct (PyStr.int v)|]; cbn [model_after logged];
    (split; [done|by repeat constructor]).
Qed.

Lemma scales_override_keeps o :
  (forall ns m, f (set_max_select_num_each_scale ns m) = f m) ->
  respects f (fun _ : event => True) (scales_override o).
Proof.
  intros Hset m. rewrite scales_override_run.
  destruct o as [v|]; [destruct (mapM _ _)|]; cbn [model_after logged];
    (split; [done|by repeat constructor]).
Qed.

Lemma mode_override_keeps o :
  (forall v m, f (set_look_close_mode v m) = f m) ->
  respects f (fun _ : event => True) (mode_override o).
Proof.
  intros Hset m. rewrite mode_override_run.
  destruct o as [v|]; cbn [model_after logged];
    (split; [done|by repeat constructor]).
Qed.

Lemma int_override_raises_keeping msg set v m :
  PyStr.int v = None ->
  raises_keeping f (f m) (int_override msg set (Some v) m).
Proof. intros Hv. rewrite int_override_run, Hv. by eexists. Qed.

Lemma scales_override_raises_keeping v m :
  mapM PyStr.int (PyStr.split "+" v) = None ->
  raises_keeping f (f m) (scales_override (Some v) m).
Proof. intros Hv. rewrite scales_override_run, Hv. by eexists. Qed.

Lemma flag_override_raises_keeping v m :
  flag_of v = None -> raises_keeping f (f m) (flag_override (Some v) m).
Proof. intros Hv. rewrite flag_override_run, Hv. by eexists. Qed.

Lemma configure_unreadable_keeping environ m :
  (forall n m, f (set_num_look_close n m) = f m) ->
  (forall n m, f (set_num_token_look_close n m) = f m) ->
  (forall ns m, f (set_max_select_num_each_scale ns m) = f m) ->
  (forall v m, f (set_look_close_mode v m) = f m) ->
  readable environ = false ->
  raises_keeping f (f m) (configure_ps3_and_context_length environ m).
Proof.
  intros H1 H2 H3 H4 Hr. rewrite configure_steps. unfold readable in Hr.
  pose proof (int_override_keeps "Num look close: " set_num_look_close
                (environ !! "NUM_LOOK_CLOSE") H1) as K1.
  pose proof (int_override_keeps "Num token look close: "
                set_num_token_look_close
                (environ !! "NUM_TOKEN_LOOK_CLOSE") H2) as K2.
  pose proof (scales_override_keeps (environ !! "SELECT_NUM_EACH_SCALE") H3)
    as K3.
  pose proof (mode_override_keeps (environ !! "LOOK_CLOSE_MODE") H4) as K4.
  apply andb_false_iff in Hr as [Hr|(v & Hv & Hp)%unreadable_cases];
    [apply andb_false_iff in Hr as [Hr|(v & Hv & Hp)%unreadable_cases];
     [apply andb_false_iff in Hr as
         [(v & Hv & Hp)%unreadable_cases|(v & Hv & Hp)%unreadable_cases]|]|].
  - rewrite Hv. by apply keeping_first, int_override_raises_keeping.
  - eapply keeping_later;
      [done|exact K1|apply int_override_only_ValueError|intros _ m1 <-].
    rewrite Hv. by apply keeping_first, int_override_raises_keeping.
  - eapply keeping_later;
      [done|exact K1|apply int_override_only_ValueError|intros _ m1 <-].
    eapply keeping_later;
      [done|exact K2|apply int_override_only_ValueError|intros _ m2 <-].
    rewrite Hv. by apply keeping_first, scales_override_raises_keeping.
  - eapply keeping_later;
      [done|exact K1|apply int_override_only_ValueError|intros _ m1 <-].
    eapply keeping_later;
      [done|exact K2|apply int_override_only_ValueError|intros _ m2 <-].
    eapply keeping_later;
      [done|exact K3|apply scales_override_only_ValueError|intros _ m3 <-].
    eapply keeping_later;
      [done|exact K4|apply mode_override_only_ValueError|intros _ m4 <-].
    rewrite Hv. by apply keeping_first, flag_override_raises_keeping.
Qed.

End KeepingSteps.

(** X10: a run that raises has raised a [ValueError] before the context
    length was touched: the two configurations and the tokenizer are as
    they were, whatever overrides were assigned before the bad value. *)
Theorem configure_raise_keeps_context_length environ m e :
  returned (configure_ps3_and_context_length environ m) = Raise e ->
  let m' := model_after (configure_ps3_and_context_length environ m) in
  is_ValueError e = true
  /\ config m' = config m
  /\ llm_config m' = llm_config m
  /\ tokenizer m' = tokenizer m.
Proof.
  intros He m'. subst m'.
  assert (readable environ = false) as Hr.
  { destruct (readable environ) eqn:Hr; [|done].
    apply (configure_returns_iff environ m) in Hr. congruence. }
  destruct (configure_unreadable_keeping
              (fun m => (config m, llm_config m, tokenizer m))
              environ m) as (e' & He' & Hv & Hf); [done..|].
  simplify_eq. by rewrite He in He'; simplify_eq.
Qed.

Lemma configure_raise_keeps_context_length_witness :
  let r := configure_ps3_and_context_length smooth_maybe loaded_model in
  is_ValueError (ValueError "Invalid smooth selection prob: maybe") = true
  /\ config (model_after r) = config loaded_model
  /\ llm_config (model_after r) = llm_config loaded_model
  /\ tokenizer (model_after r) = tokenizer loaded_model.
Proof.
  apply (configure_raise_keeps_context_length smooth_maybe loaded_model).
  reflexivity.
Defined.

(* ================================================================= *)
(** ** What the configuration logs *)

Lemma logged_bind {A B} (c : Mut A) (k : A -> Mut B) m :
  logged ((c ≫= k) m)
  = logged (c m)
    ++ match returned (c m) with
       | Ok a => logged (k a (model_after (c m)))
       | Raise _ => []
       end.
Proof.
  destruct (c m) as [[a|e] m' entries] eqn:Hc.
  - by erewrite bind_Ok by exact Hc.
  - erewrite bind_Raise by exact Hc. cbn. by rewrite app_nil_r.
Qed.

Lemma returned_bind {A B} (c : Mut A) (k : A -> Mut B) m b :
  returned ((c ≫= k) m) = Ok b ->
  exists a, returned (c m) = Ok a
            /\ returned (k a (model_after (c m))) = Ok b.
Proof.
  destruct (c m) as [[a|e] m' entries] eqn:Hc.
  - erewrite bind_Ok by exact Hc. cbn. eauto.
  - by erewrite bind_Raise by exact Hc.
Qed.

Lemma int_override_logged msg set o m :
  logged (int_override msg set o m) = info_line msg o.
Proof.
  rewrite int_override_run. destruct o as [v|]; [|done].
  by destruct (PyStr.int v).
Qed.

Lemma scales_override_logged o m :
  logged (scales_override o m) = info_line "Select num each scale: " o.
Proof.
  rewrite scales_override_run. destruct o as [v|]; [|done].
  by destruct (mapM _ _).
Qed.

Lemma mode_override_logged o m :
  logged (mode_override o m) = info_line "Look close mode: " o.
Proof. rewrite mode_override_run. by destruct o. Qed.

Lemma flag_override_logged o m :
  logged (flag_override o m) = info_line "Smooth selection prob: " o.
Proof.
  rewrite flag_override_run. destruct o as [v|]; [|done].
  by destruct (flag_of v).
Qed.

Lemma adjust_context_length_logged o1 o2 m :
  logged (adjust_context_length o1 o2 m) = [].
Proof.
  assert (respects (fun _ => tt) (fun _ => False) (adjust_context_length o1 o2))
    as H.
  { unfold adjust_context_length.
    repeat first
      [ apply respects_bind; [|intros ?]
      | apply respects_int
      | apply respects_read
      | apply respects_ret
      | apply respects_assign; intros ?; reflexivity
      | match goal with
        | |- respects _ _ (match ?o with _ => _ end) => destruct o
        end ]. }
  destruct (H m) as [_ Hlog].
  destruct (logged (adjust_context_length o1 o2 m)) as [|ev evs]; [done|].
  by apply Forall_cons in Hlog as [[] _].
Qed.

(** X11: the function logs one line for each of the five variables that
    is present, with the value as it stands in the environment, in the
    order of the statements and before the value is read: what a run
    has logged is a beginning of these lines, and all of them after a
    run that returns. *)
Theorem configure_logs_present_variables environ m :
  logged (configure_ps3_and_context_length environ m)
    `prefix_of` info_lines environ
  /\ (returned (configure_ps3_and_context_length environ m) = Ok tt ->
      logged (configure_ps3_and_context_length environ m) = info_lines environ).
Proof.
  rewrite configure_steps. unfold info_lines.
  split.
  - rewrite logged_bind, int_override_logged. apply prefix_app.
    destruct (returned _); [|apply prefix_nil].
    rewrite logged_bind, int_override_logged. apply prefix_app.
    destruct (returned _); [|apply prefix_nil].
    rewrite logged_bind, scales_override_logged. apply prefix_app.
    destruct (returned _); [|apply prefix_nil].
    rewrite logged_bind, mode_override_logged. apply prefix_app.
    destruct (returned _); [|apply prefix_nil].
    rewrite logged_bind, flag_override_logged.
    destruct (returned _); [|by rewrite app_nil_r].
    by rewrite adjust_context_length_logged, app_nil_r.
  - intros Hok.
    rewrite logged_bind, int_override_logged.
    apply returned_bind in Hok as (? & -> & Hok).
    rewrite logged_bind, int_override_logged.
    apply returned_bind in Hok as (? & -> & Hok).
    rewrite logged_bind, scales_override_logged.
    apply returned_bind in Hok as (? & -> & Hok).
    rewrite logged_bind, mode_override_logged.
    apply returned_bind in Hok as (? & -> & Hok).
    rewrite logged_bind, flag_override_logged.
    apply returned_bind in Hok as (? & -> & Hok).
    by rewrite adjust_context_length_logged, app_nil_r.
Qed.

Lemma configure_logs_present_variables_witness :
  logged (configure_ps3_and_context_length two_overrides loaded_model)
  = [LogInfo "Num token look close: 2048"; LogInfo "Smooth selection prob: True"].
Proof.
  destruct (configure_logs_present_variables two_overrides loaded_model)
    as [_ H].
  etrans; [apply H; reflexivity|reflexivity].
Defined.

(* ================================================================= *)
(** ** What the model is asked *)

Section Prompts.

Context (w : World) (model : Model) (image_files : list Path).

Lemma asked_suffix shorter pending prompt :
  shorter `suffix_of` pending -> asked image_files shorter prompt ->
  asked image_files pending prompt.
Proof.
  intros [k ->] (selected & raw & ? & ? & ? & Hin & ? & ?).
  exists selected, raw. split_and!; try done. apply in_app_iff. by right.
Qed.

Lemma turn_asks pending :
  let o := turn w model image_files pending in
  Forall (asked image_files pending) (calls (output o))
  /\ (2 * length (calls (output o)) + length (remaining o) <= length pending)%nat.
Proof.
  cbv zeta.
  destruct (turn_calls w model image_files pending)
    as [->|(selected & raw & rest & Hsel & Hne & Hrem & Htext & Hquit & -> & ->)].
  - split; [constructor|]. cbn [length].
    pose proof (suffix_length _ _ (turn_remaining w model image_files pending)).
    lia.
  - destruct (select_images_returned _ _ _ Hsel) as [Hcat Hlen].
    rewrite Hrem in Hlen. cbn [length] in Hlen |- *. split; [|lia].
    repeat constructor. exists selected, raw. split_and!; try done.
    destruct (select_images_remaining image_files pending) as [k Hk].
    rewrite Hk, Hrem. apply in_app_iff. right. by left.
Qed.

Lemma calls_handled v : calls (handled v) = [].
Proof. by destruct v. Qed.

(** X12: in a whole session every call of the model has a prompt made
    of the paths of selected catalog entries, at least one, followed by
    one question that was typed, stripped, and is neither empty nor a
    quit token; every call costs two answers of the terminal. *)
Theorem session_loop_asks pending :
  Forall (asked image_files pending) (calls (session_loop w model image_files pending).2)
  /\ (2 * length (calls (session_loop w model image_files pending).2)
      <= length pending)%nat.
Proof.
  induction pending as [pending IH] using session_loop_induction.
  destruct (turn_asks pending) as [Hasked Hlen]. cbv zeta in Hasked, Hlen.
  destruct (turn_fate (value (turn w model image_files pending)))
    as [Hv|[Hv|[Hv|(e & Hv & Hexc & Hne)]]].
  - rewrite session_loop_step. cbv zeta. rewrite Hv. cbn [snd].
    split; [done|lia].
  - rewrite session_loop_step. cbv zeta. rewrite Hv. cbn [snd].
    rewrite calls_app, app_nil_r. split; [done|lia].
  - rewrite (session_loop_goes_on _ _ _ _ Hv). cbv zeta.
    destruct (decide _) as [Hlt|_].
    + destruct (IH _ Hlt) as [IHasked IHlen]. cbn [after snd].
      rewrite !calls_app, calls_handled, app_nil_r, length_app.
      split; [|lia]. apply Forall_app. split; [done|].
      eapply Forall_impl; [exact IHasked|]. intros prompt.
      apply asked_suffix, turn_remaining.
    + cbn [snd]. rewrite calls_app, calls_handled, app_nil_r.
      split; [done|lia].
  - rewrite (session_loop_escapes _ _ _ _ _ Hv Hexc Hne). cbn [snd].
    split; [done|lia].
Qed.

End Prompts.

(* ================================================================= *)
(** ** A catalog that changes under the session *)

Lemma first_unreadable (st : Path -> option Z) image_files img :
  In img image_files -> st img = None ->
  exists before bad rest,
    image_files = before ++ bad :: rest
    /\ Forall (fun img => is_Some (st img)) before
    /\ st bad = None.
Proof.
  induction image_files as [|p l IH]; [done|]. intros Hin Himg.
  destruct (st p) as [size|] eqn:Hp.
  - destruct Hin as [->|Hin]; [congruence|].
    destruct (IH Hin Himg) as (before & bad & rest & -> & Hbefore & Hbad).
    exists (p :: before), bad, rest. split_and!; [done| |done].
    constructor; [by eexists|done].
  - by exists [], p, l.
Qed.

(** X13: when the size of a file of the catalog cannot be read, every
    pass fails in the listing, before anything is asked: the handler
    logs the error and the loop repeats without end and without reading
    the terminal, so that also a quit token cannot end the session. *)
Theorem session_with_unreadable_file_never_ends w model image_files pending img :
  In img image_files -> st_size w img = None ->
  exists bad,
    In bad image_files
    /\ st_size w bad = None
    /\ let e := LibraryError "FileNotFoundError" (Path_str bad) in
       let listed := output (display_images (st_size w) image_files pending) in
       value (turn w model image_files pending) = Raise e
       /\ session_loop w model image_files pending
          = (Forever, listed ++ [LogInferenceError e; PrintInferenceError e])
       /\ Forall (fun ev => forall text, ev <> Prompt text) listed.
Proof.
  intros Hin Himg.
  destruct (first_unreadable (st_size w) image_files img Hin Himg)
    as (before & bad & rest & -> & Hbefore & Hbad).
  exists bad. split; [apply in_app_iff; right; by left|]. split; [done|].
  cbv zeta.
  pose proof (display_lines_run (st_size w) 1 before (bad :: rest) Hbefore Hbad)
    as Hlines.
  assert (Hshown : display_images (st_size w) (before ++ bad :: rest) pending
                   = mkOutcome
                       (Raise (LibraryError "FileNotFoundError" (Path_str bad)))
                       pending
                       (Print (nl +:+ "=== Available Images ===")
                        :: listing (st_size w) 1 before)).
  { unfold display_images. by rewrite Hlines. }
  assert (Hturn : turn w model (before ++ bad :: rest) pending
                  = mkOutcome
                      (Raise (LibraryError "FileNotFoundError" (Path_str bad)))
                      pending
                      (Print (nl +:+ "=== Available Images ===")
                       :: listing (st_size w) 1 before)).
  { unfold turn. rewrite io_bind_run, Hshown. reflexivity. }
  split_and!.
  - by rewrite Hturn.
  - rewrite session_loop_step, Hturn, Hshown. cbv zeta. cbn [value remaining output].
    destruct (decide _) as [Hlt|_]; [lia|]. reflexivity.
  - rewrite Hshown. cbn [output]. constructor; [done|].
    unfold listing. apply Forall_forall. intros ev Hev.
    apply list_elem_of_lookup in Hev as [i Hi].
    rewrite list_lookup_imap in Hi.
    destruct (before !! i); [|done]. cbn in Hi. by injection Hi as <-.
Qed.

Lemma session_with_unreadable_file_never_ends_witness :
  let w := mkWorld ∅ (fun _ _ => Ok loaded_model) ∅ (fun _ => Absent)
             (fun img => if String.eqb (name img) "gone.png" then None
                         else Some 2048)
             (fun _ _ => Ok "A cat.") [] in
  let image_files := [mkPath "images" "a.jpg"; mkPath "images" "gone.png"] in
  let pending := [Line "1"; Line "quit"] in
  exists bad,
    In bad image_files
    /\ st_size w bad = None
    /\ let e := LibraryError "FileNotFoundError" (Path_str bad) in
       let listed := output (display_images (st_size w) image_files pending) in
       value (turn w loaded_model image_files pending) = Raise e
       /\ session_loop w loaded_model image_files pending
          = (Forever, listed ++ [LogInferenceError e; PrintInferenceError e])
       /\ Forall (fun ev => forall text, ev <> Prompt text) listed.
Proof.
  apply (session_with_unreadable_file_never_ends
           (mkWorld ∅ (fun _ _ => Ok loaded_model) ∅ (fun _ => Absent)
              (fun img => if String.eqb (name img) "gone.png" then None
                          else Some 2048)
              (fun _ _ => Ok "A cat.") [])
           loaded_model
           [mkPath "images" "a.jpg"; mkPath "images" "gone.png"]
           [Line "1"; Line "quit"]
           (mkPath "images" "gone.png")); [by right; left|reflexivity].
Defined.

(* ================================================================= *)
(** ** How a run ends *)

(** X14: a session in which no quit token is typed, no interrupt
    reaches a prompt, and the generation raises nothing but what derives
    from [Exception], never ends: also the end of the input does not end
    it, since the [EOFError] of [input] is handled like an error of the
    generation. *)
Theorem session_without_quit_never_ends w model image_files pending :
  ~ In CtrlC pending ->
  (forall raw, In (Line raw) pending ->
               PyStr.lower (PyStr.strip raw) ∉ quit_tokens) ->
  (forall prompt e, generate_content w model prompt = Raise e ->
                    is_Exception e = true) ->
  (session_loop w model image_files pending).1 = Forever.
Proof.
  intros Hkey Hquit Hgen.
  destruct (session_loop_end w model image_files pending)
    as [Hexit|[?|(e & prompt & Hraise & Hexc & _)]]; [|done|].
  - destruct (session_loop_exit w model image_files pending 0 Hexit)
      as [[_ [how Hends]]|[prompt Hraise]].
    + apply session_ends_cause in Hends. destruct how.
      * destruct Hends as (raw & Hin & Hq). by destruct (Hquit raw Hin).
      * destruct Hends as [?|[prompt Hraise]]; [done|].
        by apply Hgen in Hraise.
    + by apply Hgen in Hraise.
  - apply Hgen in Hraise. congruence.
Qed.

Lemma session_without_quit_never_ends_witness :
  (session_loop (example_world ∅ two_images []) loaded_model
     [mkPath "images" "a.jpg"; mkPath "images" "b.png"]
     [Line "1"; Line "What is this?"]).1 = Forever.
Proof.
  apply session_without_quit_never_ends.
  - intros [|[|[]]]; discriminate.
  - intros raw [[= <-]|[[= <-]|[]]]; vm_compute;
      intros H; repeat (apply elem_of_cons in H as [H|H]; [discriminate|]);
      by apply elem_of_nil in H.
  - discriminate.
Defined.

Lemma display_images_readable st image_files pending :
  Forall (fun img => is_Some (st img)) image_files ->
  value (display_images st image_files pending) = Ok tt.
Proof.
  intros Hall. unfold display_images.
  pose proof (display_lines_run st 1 image_files [] Hall I) as Hrun.
  rewrite app_nil_r in Hrun. by rewrite Hrun.
Qed.

(** X15: while the sizes of the files of the catalog can be read and
    the generation raises nothing that the handlers do not catch, an
    interrupt that reaches one of the prompts ends the session: with
    the interrupt somewhere in what the prompts receive, the loop is
    left with status 0, by the interrupt or by a quit token typed before
    it, and the farewell is the last thing written. *)
Theorem interrupt_key_ends_session w model image_files pending :
  Forall (fun img => is_Some (st_size w img)) image_files ->
  (forall prompt e, generate_content w model prompt = Raise e ->
                    e = KeyboardInterrupt \/ is_Exception e = true) ->
  In CtrlC pending ->
  (session_loop w model image_files pending).1 = Exit 0
  /\ (last (session_loop w model image_files pending).2 = Some farewell_quit
      \/ last (session_loop w model image_files pending).2
         = Some farewell_interrupt).
Proof.
  intros Hfiles Hgen Hkey.
  assert (Hcaught : forall prompt e,
             generate_content w model prompt = Raise e ->
             is_Exception e = false -> e <> KeyboardInterrupt -> False).
  { intros prompt e [->|He]%Hgen Hexc Hne; [done|congruence]. }
  assert (Hexit : (session_loop w model image_files pending).1 = Exit 0).
  { revert Hkey.
    induction pending as [pending IH] using session_loop_induction.
    intros Hkey.
    destruct (turn_keeps_interrupt w model image_files pending
                (display_images_readable _ _ _ Hfiles) Hkey)
      as [Hv|[Hv|[Hin Hlt]]].
    - rewrite session_loop_step. cbv zeta. by rewrite Hv.
    - rewrite session_loop_step. cbv zeta. by rewrite Hv.
    - destruct (turn_fate (value (turn w model image_files pending)))
        as [Hv|[Hv|[Hv|(e & Hv & Hexc & Hne)]]].
      + rewrite session_loop_step. cbv zeta. by rewrite Hv.
      + rewrite session_loop_step. cbv zeta. by rewrite Hv.
      + rewrite (session_loop_goes_on _ _ _ _ Hv). cbv zeta.
        destruct (decide _); [|done]. cbn [after fst]. by apply IH.
      + destruct (turn_escapes _ _ _ _ _ Hv Hexc Hne) as [prompt Hraise].
        by destruct (Hcaught prompt e). }
  split; [done|].
  destruct (session_loop_exit w model image_files pending 0 Hexit)
    as [[_ [how Hends]]|[prompt Hraise]].
  - destruct (session_ends_exit _ _ _ _ _ Hends) as [_ ->].
    destruct how; [by left|by right].
  - by destruct (Hcaught prompt (SystemExit 0)).
Qed.

Lemma interrupt_key_ends_session_witness :
  let r := session_loop (example_world ∅ two_images []) loaded_model
             [mkPath "images" "a.jpg"; mkPath "images" "b.png"]
             [Line "zzz"; Line "1"; Line "What is this?"; CtrlC; Line "2"] in
  r.1 = Exit 0
  /\ (last r.2 = Some farewell_quit \/ last r.2 = Some farewell_interrupt).
Proof.
  apply interrupt_key_ends_session.
  - repeat constructor; by eexists.
  - discriminate.
  - do 3 right. by left.
Defined.

(** X16: [main] ends in an uncaught exception with a traceback in one
    of five ways: loading the model raises it; or the configuration
    raises its [ValueError]; or the conversation mode is no key of the
    templates; or the file system fails in [find_images]; or, in the session
    loop, the generation raises what neither handler catches.  Unless
    the loop was entered, nothing but reports was written: nothing was
    asked or generated. *)
Theorem main_traceback_causes args w e :
  (main args w).1 = Traceback e ->
  (loaded args w = Raise e /\ Forall is_report (main args w).2)
  \/ (exists model0,
        loaded args w = Ok model0
        /\ returned (configure_ps3_and_context_length (environ w) model0)
           = Raise e
        /\ is_ValueError e = true
        /\ Forall is_report (main args w).2)
  \/ (exists model0,
        loaded args w = Ok model0
        /\ returned (configure_ps3_and_context_length (environ w) model0)
           = Ok tt
        /\ conv_templates w !! conv_mode args = None
        /\ e = KeyError (conv_mode args)
        /\ Forall is_report (main args w).2)
  \/ (exists model cls msg,
        started args w model
        /\ fs w (images_dir args) = FsFails cls msg
        /\ e = LibraryError cls msg
        /\ Forall is_report (main args w).2)
  \/ (exists model image_files prompt,
        started args w model
        /\ (find_images (fs w) (images_dir args)).1 = Ok image_files
        /\ image_files <> []
        /\ generate_content w model prompt = Raise e
        /\ is_Exception e = false /\ e <> KeyboardInterrupt).
Proof.
  intros Hend.
  destruct (started_cases args w)
    as [(e' & Hload & Hend' & Htrace)|[(model0 & e' & Hload & Hraise & Hve & Hend' & Htrace)
       |[(model0 & Hload & Hok & Hconv & Hend' & Htrace)|[model Hstarted]]]].
  - left. rewrite Hend' in Hend. split; [|done].
    destruct e'; cbn [uncaught] in Hend; by simplify_eq.
  - right; left. exists model0. rewrite Hend' in Hend. by simplify_eq.
  - right; right; left. exists model0. rewrite Hend' in Hend. by simplify_eq.
  - right; right; right.
    destruct (main_started _ _ _ Hstarted) as (startup & Hstartup & Hmain).
    destruct ((find_images (fs w) (images_dir args)).1)
      as [[|img image_files]|e'] eqn:Hfound.
    + by rewrite Hmain in Hend.
    + right. exists model, (img :: image_files).
      destruct (main_entered _ _ _ (img :: image_files) Hstarted Hfound)
        as [startup' Hmain']; [done|].
      rewrite Hmain' in Hend. cbn [after fst] in Hend.
      destruct (session_loop_end w model (img :: image_files) (keyboard w))
        as [H|[H|(e' & prompt & Hgen & Hexc & Hne & H)]];
        rewrite H in Hend; [done..|].
      exists prompt. destruct e'; cbn [uncaught] in Hend; simplify_eq;
        by split_and!.
    + left. rewrite Hmain in Hend |- *. cbn [after fst snd] in Hend |- *.
      unfold find_images in Hfound.
      destruct (fs w (images_dir args)) as [|cls msg| |] eqn:Hfs;
        cbn [fst] in Hfound; simplify_eq.
      cbn [uncaught] in Hend. injection Hend as <-.
      exists model, cls, msg. split_and!; [done..|]. by rewrite app_nil_r.
Qed.

Lemma main_traceback_causes_witness :
  let args := mkArgs "NVILA-Lite-8B" "images" "llama_3" None in
  let w := example_world ∅ two_images [Line "1"] in
  exists model0,
    loaded args w = Ok model0
    /\ returned (configure_ps3_and_context_length (environ w) model0) = Ok tt
    /\ conv_templates w !! conv_mode args = None
    /\ Forall is_report (main args w).2.
Proof.
  assert ((main (mkArgs "NVILA-Lite-8B" "images" "llama_3" None)
             (example_world ∅ two_images [Line "1"])).1
          = Traceback (KeyError "llama_3")) as Hend by reflexivity.
  destruct (main_traceback_causes
              (mkArgs "NVILA-Lite-8B" "images" "llama_3" None)
              (example_world ∅ two_images [Line "1"])
              (KeyError "llama_3") Hend)
    as [[Hload _]|[(model0 & Hload & Hraise & _)
       |[(model0 & Hload & Hok & Hconv & _ & Htrace)
        |[(model & cls & msg & _ & Hfs & _)
         |(model & image_files & prompt & _ & _ & _ & Hgen & _)]]]];
    [discriminate|discriminate| |discriminate|discriminate].
  by exists model0.
Defined.

(* ================================================================= *)
(** ** More about the remote client *)

Section ClientErrors.

Import Client.

(** The shape of a response that has the content of a first choice. *)
Lemma answer_Ok parsed content :
  answer parsed = Ok content <->
  exists (top first_choice message : gmap string json) others,
    parsed = JObject top
    /\ top !! "choices" = Some (JArray (JObject first_choice :: others))
    /\ first_choice !! "message" = Some (JObject message)
    /\ message !! "content" = Some content.
Proof.
  split.
  - unfold answer, and_then, item.
    destruct parsed as [| | | | |top]; try done.
    destruct (top !! "choices") as [choices|] eqn:Hchoices; [|done].
    destruct choices as [| | |[|c s]|[|choice others]|]; try done.
    cbn [first].
    destruct choice as [| | | | |first_choice]; try done.
    destruct (first_choice !! "message") as [message|] eqn:Hmessage; [|done].
    destruct message as [| | | | |message]; try done.
    destruct (message !! "content") as [content'|] eqn:Hcontent; [|done].
    intros [= <-]. by exists top, first_choice, message, others.
  - intros (top & first_choice & message & others & -> & H1 & H2 & H3).
    by eapply answer_first_choice.
Qed.

End ClientErrors.

(** X17: the client prints exactly when the response is an object whose
    [choices] is a list that starts with an object whose [message] is
    an object with a [content], and then it prints that content, once,
    after the one request, and ends with status 0; any other response,
    and any failure of the request, ends the script in the uncaught
    exception after the one request, with nothing printed: a [KeyError]
    for a missing [choices], an [IndexError] for an empty one. *)
Theorem client_prints_iff_first_choice
  (server : Client.request -> result Client.json) :
  let r := Client.mkRequest "POST" Client.url Client.headers Client.data in
  (forall content,
     In (Client.PrintValue content) (Client.client server).2 <->
     exists (top first_choice message : gmap string Client.json) others,
       server r = Ok (Client.JObject top)
       /\ top !! "choices"
          = Some (Client.JArray (Client.JObject first_choice :: others))
       /\ first_choice !! "message" = Some (Client.JObject message)
       /\ message !! "content" = Some content)
  /\ (forall content,
        In (Client.PrintValue content) (Client.client server).2 ->
        Client.client server
        = (Exit 0, [Client.Send r; Client.PrintValue content]))
  /\ ((forall content,
         ~ In (Client.PrintValue content) (Client.client server).2) ->
      exists e,
        Client.client server = (uncaught e, [Client.Send r])
        /\ (server r = Raise e
            \/ exists parsed,
                 server r = Ok parsed /\ Client.answer parsed = Raise e))
  /\ (forall top : gmap string Client.json,
        server r = Ok (Client.JObject top) -> top !! "choices" = None ->
        Client.client server
        = (Traceback (KeyError "choices"), [Client.Send r]))
  /\ (forall top : gmap string Client.json,
        server r = Ok (Client.JObject top) ->
        top !! "choices" = Some (Client.JArray []) ->
        Client.client server
        = (Traceback (LibraryError "IndexError" "list index out of range"),
           [Client.Send r])).
Proof.
  intros r.
  assert (Hprinted : forall content,
             In (Client.PrintValue content) (Client.client server).2 ->
             exists parsed,
               server r = Ok parsed /\ Client.answer parsed = Ok content).
  { intros content. unfold Client.client. fold r.
    destruct (server r) as [parsed|e]; [|by intros [|[]]].
    destruct (Client.answer parsed) as [content'|e] eqn:Hanswer;
      [|by intros [|[]]].
    intros [|[[= <-]|[]]]; [done|]. by exists parsed. }
  split_and!.
  - intros content. split.
    + intros (parsed & Hserver & Hanswer)%Hprinted.
      apply answer_Ok in Hanswer
        as (top & first_choice & message & others & -> & H1 & H2 & H3).
      by exists top, first_choice, message, others.
    + intros (top & first_choice & message & others & Hserver & H1 & H2 & H3).
      unfold Client.client. fold r. rewrite Hserver.
      rewrite (answer_first_choice top first_choice message others content)
        by done.
      right. by left.
  - intros content (parsed & Hserver & Hanswer)%Hprinted.
    unfold Client.client. fold r. by rewrite Hserver, Hanswer.
  - intros Hnone. unfold Client.client in Hnone |- *. fold r in Hnone |- *.
    destruct (server r) as [parsed|e]; [|by eauto].
    destruct (Client.answer parsed) as [content|e] eqn:Hanswer; [|by eauto 6].
    destruct (Hnone content). right. by left.
  - intros top Hserver Hchoices. unfold Client.client. fold r.
    rewrite Hserver. unfold Client.answer, Client.and_then, Client.item.
    by rewrite Hchoices.
  - intros top Hserver Hchoices. unfold Client.client. fold r.
    rewrite Hserver. unfold Client.answer, Client.and_then, Client.item.
    by rewrite Hchoices.
Qed.

Lemma client_prints_iff_first_choice_witness :
  Client.client two_choices
  = (Exit 0,
     [Client.Send (Client.mkRequest "POST" Client.url Client.headers Client.data);
      Client.PrintValue (Client.JString "A logo.")]).
Proof.
  destruct (client_prints_iff_first_choice two_choices) as (Hiff & Hprint & _).
  apply Hprint, Hiff. do 4 eexists. split_and!; reflexivity.
Defined.
